(** * Chromium accessibility tree: [src/chromium/crAccessibility.ts]

    A shallow embedding of the class [CRAXNode] (tree construction, the
    classification predicates, the serializer and the generic search) and the
    properties of it that the specification states.

    Conventions of the embedding.
    - A JavaScript value of type [any] is a [jsval].
    - A [Map<string, V>] whose iteration order is observed ([nodeById]) is an
      association list kept in insertion order; a [Map] or object that is only
      read by key ([properties], the serialized node) is a [gmap].
    - A [CRAXNode] object is designated by the key under which [createTree]
      stores it; the entries of [_children] are such references, or
      [undefined].
    - [_cachedHasFocusableChild] is the only field written after construction.
      Its values, for all objects at once, are a finite map from references to
      booleans; a reference that is not bound is a field still [undefined].
    - A method that can throw returns a [completion]; a method whose recursion
      follows [_children] takes a fuel argument and returns [None] when the
      fuel runs out. A reference that the heap does not bind behaves as
      [undefined]: a field read or a method call on it throws.
    - [String.prototype.toLowerCase] is a parameter of the serializer's
      model: the statements about [serialize] hold for every lower-casing.
    - The statements about a walk of the tree are made for trees: below the
      node every child reference is defined and no path comes back to a node
      it left ([tree_ok]). *)

From Stdlib Require Import ZArith Ascii String List.
From stdpp Require Import base option list strings gmap relations.

Local Open Scope string_scope.

(** ** JavaScript values *)

Inductive jsval : Type :=
  | JUndefined
  | JNull
  | JBool (b : bool)
  | JNum (z : Z)
  | JStr (s : string).

(** [!!v]: the values that are not falsy. Numbers are the integer ones. *)
Definition truthy (v : jsval) : bool :=
  match v with
  | JUndefined | JNull => false
  | JBool b => b
  | JNum z => negb (Z.eqb z 0)
  | JStr s => negb (String.eqb s "")
  end.

(** [v === 's'] for a string literal ['s']. *)
Definition strict_eq_str (v : jsval) (s : string) : bool :=
  match v with
  | JStr t => String.eqb t s
  | _ => false
  end.

(** [s || d] on strings: the empty string is the only falsy one. *)
Definition str_or (s d : string) : string :=
  if String.eqb s "" then d else s.

(** What [String.prototype.toLowerCase] does to a string of ASCII characters.
    It is not the engine's function, which also maps letters outside ASCII
    (the Kelvin sign to [k], for one): the model of [serialize] takes the
    lower-casing as a parameter, and this one only serves to run the model
    on sample payloads whose property names are ASCII. *)
Definition ascii_toLowerCase (c : ascii) : ascii :=
  let n := nat_of_ascii c in
  if Nat.leb 65 n && Nat.leb n 90 then ascii_of_nat (n + 32) else c.

Fixpoint toLowerCase_ascii (s : string) : string :=
  match s with
  | EmptyString => EmptyString
  | String c s' => String (ascii_toLowerCase c) (toLowerCase_ascii s')
  end.

Inductive JsError : Type := TypeError.

Inductive completion (A : Type) : Type :=
  | Normal (a : A)
  | Throw (e : JsError).
Arguments Normal {A} a.
Arguments Throw {A} e.

(** ** The protocol payload *)

Module Protocol.

(** Modelled from the spec: [Protocol.Accessibility.AXNode] is declared in
    [protocol.ts]; the fields are those of the input schema, [{ id, role?:
    { value: string }, name?: { value: string }, value?: { value },
    description?: { value }, properties?: [{ name, value: { value } }],
    childIds?: string[] }]. An optional field is an [option]; the wrapper
    [{ value }] is left out, so [role p = Some r] reads [p.role.value = r]
    and [property_value q] reads [q.value.value]. *)
Record AXProperty : Type := mkAXProperty {
  property_name : string;
  property_value : jsval
}.

Record AXNode : Type := mkAXNode {
  nodeId : string;
  role : option string;
  name : option string;
  value : option jsval;
  description : option jsval;
  properties : option (list AXProperty);
  childIds : option (list string);
  backendDOMNodeId : option Z
}.

End Protocol.

(** ** The node object *)

(** A reference to a node object: its key in [nodeById]. *)
Abbreviation ref := string (only parsing).

(** The flags are declared [boolean] and assigned a property value of type
    [any]; every read of them is in boolean position, so the record keeps the
    truthiness of what was assigned. *)
Record CRAXNode : Type := mkCRAXNode {
  _payload : Protocol.AXNode;
  _children : list (option ref);
  _richlyEditable : bool;
  _editable : bool;
  _focusable : bool;
  _expanded : bool;
  _hidden : bool;
  _name : string;
  _role : string
}.

Definition set_editable (this : CRAXNode) (richly : bool) : CRAXNode :=
  mkCRAXNode (_payload this) (_children this) richly true (_focusable this)
             (_expanded this) (_hidden this) (_name this) (_role this).

Definition set_focusable (this : CRAXNode) (b : bool) : CRAXNode :=
  mkCRAXNode (_payload this) (_children this) (_richlyEditable this)
             (_editable this) b (_expanded this) (_hidden this) (_name this)
             (_role this).

Definition set_expanded (this : CRAXNode) (b : bool) : CRAXNode :=
  mkCRAXNode (_payload this) (_children this) (_richlyEditable this)
             (_editable this) (_focusable this) b (_hidden this) (_name this)
             (_role this).

Definition set_hidden (this : CRAXNode) (b : bool) : CRAXNode :=
  mkCRAXNode (_payload this) (_children this) (_richlyEditable this)
             (_editable this) (_focusable this) (_expanded this) b (_name this)
             (_role this).

(** [this._children.push(child)] for each of [cs] in turn. *)
Definition push_children (this : CRAXNode) (cs : list (option ref)) : CRAXNode :=
  mkCRAXNode (_payload this) (_children this ++ cs) (_richlyEditable this)
             (_editable this) (_focusable this) (_expanded this) (_hidden this)
             (_name this) (_role this).

(** The body of the constructor's loop, for one property. *)
Definition constructor_property (this : CRAXNode) (property : Protocol.AXProperty)
  : CRAXNode :=
  let pname := Protocol.property_name property in
  let pvalue := Protocol.property_value property in
  let this :=
    if String.eqb pname "editable"
    then set_editable this (strict_eq_str pvalue "richtext") else this in
  let this :=
    if String.eqb pname "focusable" then set_focusable this (truthy pvalue) else this in
  let this :=
    if String.eqb pname "expanded" then set_expanded this (truthy pvalue) else this in
  if String.eqb pname "hidden" then set_hidden this (truthy pvalue) else this.

(** [new CRAXNode(client, payload)]. *)
Definition new_CRAXNode (payload : Protocol.AXNode) : CRAXNode :=
  let this :=
    mkCRAXNode payload [] false false false false false
      (match Protocol.name payload with Some v => v | None => "" end)
      (match Protocol.role payload with Some v => v | None => "Unknown" end) in
  fold_left constructor_property (default [] (Protocol.properties payload)) this.

(** ** Classification that reads the node alone *)

Definition _isPlainTextField (this : CRAXNode) : bool :=
  if _richlyEditable this then false
  else if _editable this then true
  else String.eqb (_role this) "textbox" || String.eqb (_role this) "ComboBox"
       || String.eqb (_role this) "searchbox".

Definition _isTextOnlyObject (this : CRAXNode) : bool :=
  let role := _role this in
  String.eqb role "LineBreak" || String.eqb role "text"
  || String.eqb role "InlineTextBox".

(** The [switch] of [isLeafNode]: the roles with presentational children. *)
Definition presentational_children_roles : list string :=
  ["doc-cover"; "graphics-symbol"; "img"; "Meter"; "scrollbar"; "slider";
   "separator"; "progressbar"].

Definition control_roles : list string :=
  ["button"; "checkbox"; "ColorWell"; "combobox"; "DisclosureTriangle";
   "listbox"; "menu"; "menubar"; "menuitem"; "menuitemcheckbox";
   "menuitemradio"; "radio"; "scrollbar"; "searchbox"; "slider"; "spinbutton";
   "switch"; "tab"; "textbox"; "tree"].

(** [switch (role) { case c1: ... case cn: return true; default: ... }] *)
Definition role_in (role : string) (cases : list string) : bool :=
  existsb (String.eqb role) cases.

Definition isControl (this : CRAXNode) : bool :=
  role_in (_role this) control_roles.

(** ** Serialization: the fields and the loops *)

(** The object under construction: the keys that were assigned, each with
    its value. *)
Abbreviation SerializedAXNode := (gmap string jsval) (only parsing).

Definition userStringProperties : list string :=
  ["value"; "description"; "keyshortcuts"; "roledescription"; "valuetext"].

Definition booleanProperties : list string :=
  ["disabled"; "expanded"; "focused"; "modal"; "multiline"; "multiselectable";
   "readonly"; "required"; "selected"].

Definition tristateProperties : list string := ["checked"; "pressed"].

Definition numericalProperties : list string := ["level"; "valuemax"; "valuemin"].

Definition tokenProperties : list string :=
  ["autocomplete"; "haspopup"; "invalid"; "orientation"].

(** [properties.get(k)]: [undefined] for a key that is not there. *)
Definition map_get_or_undefined (properties : gmap string jsval) (k : string) : jsval :=
  default JUndefined (properties !! k).

Definition copy_if_present (properties : gmap string jsval)
    (node : SerializedAXNode) (k : string) : SerializedAXNode :=
  match properties !! k with
  | None => node
  | Some v => <[k := v]> node
  end.

Definition boolean_step (role : string) (properties : gmap string jsval)
    (node : SerializedAXNode) (booleanProperty : string) : SerializedAXNode :=
  if String.eqb booleanProperty "focused" && String.eqb role "WebArea" then node
  else
    let value := map_get_or_undefined properties booleanProperty in
    if negb (truthy value) then node else <[booleanProperty := value]> node.

(** [value === 'mixed' ? 'mixed' : value === 'true' ? true : false] *)
Definition tristate (value : jsval) : jsval :=
  if strict_eq_str value "mixed" then JStr "mixed"
  else if strict_eq_str value "true" then JBool true
  else JBool false.

Definition tristate_step (properties : gmap string jsval)
    (node : SerializedAXNode) (tristateProperty : string) : SerializedAXNode :=
  match properties !! tristateProperty with
  | None => node
  | Some value => <[tristateProperty := tristate value]> node
  end.

Definition token_step (properties : gmap string jsval)
    (node : SerializedAXNode) (tokenProperty : string) : SerializedAXNode :=
  let value := map_get_or_undefined properties tokenProperty in
  if negb (truthy value) || strict_eq_str value "false" then node
  else <[tokenProperty := value]> node.

(** ** Tree construction *)

(** [Map<string, V>] in insertion order: [set] on a key that is there keeps
    its place and replaces its value. *)
Fixpoint map_get {V : Type} (m : list (string * V)) (k : string) : option V :=
  match m with
  | [] => None
  | (k', v) :: m' => if String.eqb k' k then Some v else map_get m' k
  end.

Fixpoint map_set {V : Type} (m : list (string * V)) (k : string) (v : V)
  : list (string * V) :=
  match m with
  | [] => [(k, v)]
  | (k', v') :: m' =>
      if String.eqb k' k then (k, v) :: m' else (k', v') :: map_set m' k v
  end.

(** The objects of one tree: [nodeById] once [createTree] is done. *)
Definition Heap : Type := list (ref * CRAXNode).

(** [nodeById.get(childId)]: the object stored under [childId], or
    [undefined]. *)
Definition get_child (nodeById : Heap) (childId : string) : option ref :=
  match map_get nodeById childId with
  | Some _ => Some childId
  | None => None
  end.

(** The two loops of [createTree]: [nodeById] when they are done. *)
Definition createTree_nodes (payloads : list Protocol.AXNode) : Heap :=
  let nodeById : Heap :=
    fold_left
      (fun m payload => map_set m (Protocol.nodeId payload) (new_CRAXNode payload))
      payloads [] in
  map (fun entry : ref * CRAXNode =>
         let node := snd entry in
         (fst entry,
          push_children node
            (map (get_child nodeById)
                 (default [] (Protocol.childIds (_payload node))))))
      nodeById.

(** [createTree(client, payloads)]: the objects, and the one returned, which
    is the first value of [nodeById] ([None] is [undefined]). No statement
    of it throws. *)
Definition createTree (payloads : list Protocol.AXNode)
  : completion (Heap * option ref) :=
  let nodeById := createTree_nodes payloads in
  Normal (nodeById, fst <$> head nodeById).

(** ** Methods that follow [_children] *)

Abbreviation Cache := (gmap string bool) (only parsing).

(** The [for] loop of [_hasFocusableChild], from the entry [children] on;
    [rec] is the call [child._hasFocusableChild()]. The result is the cache
    when the loop is left. *)
Fixpoint hasFocusableChild_loop
    (rec : Cache -> ref -> option (completion (bool * Cache)))
    (heap : Heap) (this : ref) (children : list (option ref)) (cache : Cache)
  : option (completion Cache) :=
  match children with
  | [] => Some (Normal cache)
  | None :: _ => Some (Throw TypeError)
  | Some child :: rest =>
      match map_get heap child with
      | None => Some (Throw TypeError)
      | Some child_node =>
          if _focusable child_node then Some (Normal (<[this := true]> cache))
          else
            match rec cache child with
            | None => None
            | Some (Throw e) => Some (Throw e)
            | Some (Normal (true, cache')) => Some (Normal (<[this := true]> cache'))
            | Some (Normal (false, cache')) =>
                hasFocusableChild_loop rec heap this rest cache'
            end
      end
  end.

(** [return this._cachedHasFocusableChild]; the field is set by then. *)
Definition read_cached (cache : Cache) (this : ref) : bool :=
  default false (cache !! this).

Fixpoint _hasFocusableChild (fuel : nat) (heap : Heap) (cache : Cache) (this : ref)
  : option (completion (bool * Cache)) :=
  match fuel with
  | 0 => None
  | S fuel' =>
      match map_get heap this with
      | None => Some (Throw TypeError)
      | Some node =>
          match cache !! this with
          | Some _ => Some (Normal (read_cached cache this, cache))
          | None =>
              match hasFocusableChild_loop (_hasFocusableChild fuel' heap) heap this
                      (_children node) (<[this := false]> cache) with
              | None => None
              | Some (Throw e) => Some (Throw e)
              | Some (Normal cache') => Some (Normal (read_cached cache' this, cache'))
              end
          end
      end
  end.

(** The loop of [find]; [rec] is the call [child.find(predicate)]. *)
Fixpoint find_loop (rec : ref -> option (completion (option ref)))
    (children : list (option ref)) : option (completion (option ref)) :=
  match children with
  | [] => Some (Normal None)
  | None :: _ => Some (Throw TypeError)
  | Some child :: rest =>
      match rec child with
      | Some (Normal None) => find_loop rec rest
      | other => other
      end
  end.

(** [find(predicate)]; [None] inside the completion is [null]. *)
Fixpoint find (fuel : nat) (heap : Heap) (predicate : CRAXNode -> bool) (this : ref)
  : option (completion (option ref)) :=
  match fuel with
  | 0 => None
  | S fuel' =>
      match map_get heap this with
      | None => Some (Throw TypeError)
      | Some node =>
          if predicate node then Some (Normal (Some this))
          else find_loop (find fuel' heap predicate) (_children node)
      end
  end.

Definition isLeafNode (fuel : nat) (heap : Heap) (cache : Cache) (this : ref)
  : option (completion (bool * Cache)) :=
  match map_get heap this with
  | None => Some (Throw TypeError)
  | Some node =>
      if Nat.eqb (length (_children node)) 0 then Some (Normal (true, cache))
      else if _isPlainTextField node || _isTextOnlyObject node
      then Some (Normal (true, cache))
      else if role_in (_role node) presentational_children_roles
      then Some (Normal (true, cache))
      else
        match _hasFocusableChild fuel heap cache this with
        | None => None
        | Some (Throw e) => Some (Throw e)
        | Some (Normal (true, cache')) => Some (Normal (false, cache'))
        | Some (Normal (false, cache')) =>
            if _focusable node && negb (String.eqb (_name node) "")
            then Some (Normal (true, cache'))
            else if String.eqb (_role node) "heading" && negb (String.eqb (_name node) "")
            then Some (Normal (true, cache'))
            else Some (Normal (false, cache'))
        end
  end.

Definition isInteresting (fuel : nat) (heap : Heap) (cache : Cache) (this : ref)
    (insideControl : bool) : option (completion (bool * Cache)) :=
  match map_get heap this with
  | None => Some (Throw TypeError)
  | Some node =>
      let role := _role node in
      if String.eqb role "Ignored" || _hidden node then Some (Normal (false, cache))
      else if _focusable node || _richlyEditable node then Some (Normal (true, cache))
      else if isControl node then Some (Normal (true, cache))
      else if insideControl then Some (Normal (false, cache))
      else
        match isLeafNode fuel heap cache this with
        | Some (Normal (leaf, cache')) =>
            Some (Normal (leaf && negb (String.eqb (_name node) ""), cache'))
        | other => other
        end
  end.

(** [findElement(element)], from the point where the session has answered
    [DOM.describeNode] with [backendNodeId]: the search, and [needle || null].
    A payload without [backendDOMNodeId] compares as [undefined], which is
    not [===] to a number. *)
Definition findElement (fuel : nat) (heap : Heap) (this : ref) (backendNodeId : Z)
  : option (completion (option ref)) :=
  match
    find fuel heap
      (fun node => match Protocol.backendDOMNodeId (_payload node) with
                   | Some id => Z.eqb id backendNodeId
                   | None => false
                   end)
      this
  with
  | Some (Normal (Some needle)) => Some (Normal (Some needle))
  | Some (Normal None) => Some (Normal None)
  | other => other
  end.

(** ** The tree as the specification speaks of it *)

(** [c] is an entry of [r._children]. *)
Definition child_of (heap : Heap) (r c : ref) : Prop :=
  ∃ node, map_get heap r = Some node ∧ Some c ∈ _children node.

(** The transitive descendants of a node: children, their children, ... *)
Definition descendant (heap : Heap) : ref -> ref -> Prop := tc (child_of heap).

Definition focusable_at (heap : Heap) (d : ref) : Prop :=
  ∃ node, map_get heap d = Some node ∧ _focusable node = true.

Definition has_focusable_descendant (heap : Heap) (r : ref) : Prop :=
  ∃ d, descendant heap r d ∧ focusable_at heap d.

(** The objects reachable from [r] form a finite tree of height below
    [depth]: every reference met is an object of the heap, no entry of a
    [_children] array is [undefined], and no path is longer than [depth]
    (so there is no cycle). *)
Fixpoint tree_ok (depth : nat) (heap : Heap) (r : ref) : bool :=
  match depth with
  | 0 => false
  | S depth' =>
      match map_get heap r with
      | None => false
      | Some node =>
          forallb (fun c => match c with
                            | Some c => tree_ok depth' heap c
                            | None => false
                            end)
                  (_children node)
      end
  end.

(** Every [_cachedHasFocusableChild] that is set holds the right value. A
    tree fresh from [createTree] has none set. *)
Definition cache_sound_at (heap : Heap) (cache : Cache) (d : ref) : Prop :=
  ∀ b, cache !! d = Some b -> (b = true ↔ has_focusable_descendant heap d).

Definition cache_sound (heap : Heap) (cache : Cache) : Prop :=
  ∀ d, cache_sound_at heap cache d.

(** [cache'] is [cache] with more fields set, each to the right value. *)
Definition cache_extends (heap : Heap) (cache cache' : Cache) : Prop :=
  (∀ d b, cache !! d = Some b -> cache' !! d = Some b) ∧
  (∀ d b, cache !! d = None -> cache' !! d = Some b ->
     (b = true ↔ has_focusable_descendant heap d)).

(** The nodes of the tree below [r] in depth-first order: a node, then the
    subtrees of its children from left to right. *)
Fixpoint preorder (depth : nat) (heap : Heap) (r : ref) : list ref :=
  match depth with
  | 0 => []
  | S depth' =>
      match map_get heap r with
      | None => []
      | Some node =>
          r :: flat_map (fun c => match c with
                                  | Some c => preorder depth' heap c
                                  | None => []
                                  end)
                        (_children node)
      end
  end.

(** [predicate(d)] for the object that [d] designates. *)
Definition satisfies (heap : Heap) (predicate : CRAXNode -> bool) (d : ref) : bool :=
  match map_get heap d with
  | Some node => predicate node
  | None => false
  end.

(** ** The rules of the specification

    Each rule is written from the specification's sentence, with the role
    names as a parameter: the specification spells them in lower case, the
    code compares with the strings of the protocol. *)

(** [isPlainTextField]: false if richly editable; else true if editable;
    else true exactly for the three text-field roles. *)
Definition plain_text_rule (text_roles : list string) (n : CRAXNode) : Prop :=
  (_richlyEditable n = true -> _isPlainTextField n = false) ∧
  (_richlyEditable n = false -> _editable n = true -> _isPlainTextField n = true) ∧
  (_richlyEditable n = false -> _editable n = false ->
   (_isPlainTextField n = true ↔ _role n ∈ text_roles)).

(** [isLeafNode]: the cascade, as the condition under which it is true. *)
Definition leaf_rule (roles : list string) (heap : Heap) (r : ref) (n : CRAXNode)
  : Prop :=
  _children n = [] ∨
  _isPlainTextField n = true ∨ _isTextOnlyObject n = true ∨
  _role n ∈ roles ∨
  (¬ has_focusable_descendant heap r ∧
   ((_focusable n = true ∧ _name n ≠ "") ∨ (_role n = "heading" ∧ _name n ≠ ""))).

(** [isInteresting(insideControl)]: the cascade, as the condition under
    which it is true. *)
Definition interesting_rule (ignored : string) (heap : Heap) (r : ref)
    (n : CRAXNode) (insideControl : bool) : Prop :=
  ¬ (_role n = ignored ∨ _hidden n = true) ∧
  (_focusable n = true ∨ _richlyEditable n = true ∨ isControl n = true ∨
   (insideControl = false ∧
    leaf_rule presentational_children_roles heap r n ∧ _name n ≠ "")).

(** The specification's sentences, with its own spelling of the roles. *)
Definition isPlainTextField_as_stated (n : CRAXNode) : Prop :=
  plain_text_rule ["textbox"; "combobox"; "searchbox"] n.

Definition isLeafNode_as_stated (fuel : nat) (heap : Heap) (cache : Cache)
    (r : ref) (n : CRAXNode) : Prop :=
  ∃ b cache', isLeafNode fuel heap cache r = Some (Normal (b, cache')) ∧
    (b = true ↔
     leaf_rule ["doc-cover"; "graphics-symbol"; "img"; "meter"; "scrollbar";
                "slider"; "separator"; "progressbar"] heap r n).

Definition isInteresting_as_stated (fuel : nat) (heap : Heap) (cache : Cache)
    (r : ref) (n : CRAXNode) (insideControl : bool) : Prop :=
  ∃ b cache', isInteresting fuel heap cache r insideControl = Some (Normal (b, cache')) ∧
    (b = true ↔ interesting_rule "ignored" heap r n insideControl).

(** Tree construction fails when a child id has no record, and when there
    is no record at all. *)
Definition createTree_as_stated (payloads : list Protocol.AXNode) : Prop :=
  (payloads = [] ∨
   ∃ payload childId,
     payload ∈ payloads ∧
     childId ∈ default [] (Protocol.childIds payload) ∧
     childId ∉ Protocol.nodeId <$> payloads) ->
  ∃ e, createTree payloads = Throw e.

(** ** Notions used to state what the code does *)

(** The value of the last entry of the payload's property list whose name is
    exactly [name] (the constructor compares names as they are). *)
Definition last_property (payload : Protocol.AXNode) (name : string) : option jsval :=
  Protocol.property_value <$>
    List.find (fun q => String.eqb (Protocol.property_name q) name)
              (rev (default [] (Protocol.properties payload))).

(** The keys that [serialize] can write. *)
Definition serialized_keys : list string :=
  (["role"; "name"] ++ userStringProperties ++ booleanProperties
   ++ tristateProperties ++ numericalProperties ++ tokenProperties)%list.

(** A snapshot listed parents first: no id occurs twice, and every child id
    is the id of a record further down the list. *)
Fixpoint forward_closed (payloads : list Protocol.AXNode) : bool :=
  match payloads with
  | [] => true
  | p :: rest =>
      negb (existsb (String.eqb (Protocol.nodeId p)) (map Protocol.nodeId rest))
      && forallb (fun c => existsb (String.eqb c) (map Protocol.nodeId rest))
                 (default [] (Protocol.childIds p))
      && forward_closed rest
  end.

(** How many objects have [_cachedHasFocusableChild] still [undefined]. *)
Definition unset_fields (heap : list (ref * CRAXNode)) (cache : Cache) : nat :=
  length (filter (fun entry : ref * CRAXNode => cache !! fst entry = None) heap).

(** ** Sample snapshots *)

Definition record (id : string) (role name : option string)
    (properties : option (list Protocol.AXProperty))
    (childIds : option (list string)) : Protocol.AXNode :=
  Protocol.mkAXNode id role name None None properties childIds None.

(** The scenario of the specification: [R -> [A, B]], [A -> [C]]. The root
    also carries a [focused] and a [checked] property. *)
Definition scenario_R : Protocol.AXNode :=
  record "R" (Some "WebArea") (Some "page")
    (Some [Protocol.mkAXProperty "focused" (JBool true);
           Protocol.mkAXProperty "checked" (JBool true);
           Protocol.mkAXProperty "pressed" (JStr "mixed")])
    (Some ["A"; "B"]).

Definition scenario_A : Protocol.AXNode :=
  record "A" (Some "button") (Some "ok")
    (Some [Protocol.mkAXProperty "focusable" (JBool true)]) (Some ["C"]).

Definition scenario_C : Protocol.AXNode :=
  record "C" (Some "text") (Some "hello") None None.

Definition scenario : list Protocol.AXNode :=
  [ scenario_R; scenario_A; record "B" (Some "generic") (Some "") None None;
    scenario_C ].

Definition scenario_heap : Heap := createTree_nodes scenario.

(** The objects that [createTree scenario] stores under ["R"], ["A"] and
    ["C"]. *)
Definition scenario_root : CRAXNode :=
  push_children (new_CRAXNode scenario_R) [Some "A"; Some "B"].

Definition scenario_button : CRAXNode :=
  push_children (new_CRAXNode scenario_A) [Some "C"].

Definition scenario_text : CRAXNode := push_children (new_CRAXNode scenario_C) [].

(** A child id without a record. *)
Definition dangling : list Protocol.AXNode :=
  [ record "r" (Some "WebArea") (Some "") None (Some ["x9"]) ].

Definition dangling_heap : Heap := createTree_nodes dangling.

(** Payloads without [role], and without [name]. *)
Definition no_role : Protocol.AXNode := record "n" None (Some "title") None None.
Definition no_name : Protocol.AXNode := record "n" (Some "generic") None None None.

(** A node of role [combobox] that is not editable. *)
Definition combobox : Protocol.AXNode := record "c" (Some "combobox") (Some "") None None.

(** A node of role [meter] with one child. *)
Definition meter_m : Protocol.AXNode :=
  record "m" (Some "meter") (Some "") None (Some ["t"]).

Definition meter : list Protocol.AXNode :=
  [ meter_m; record "t" (Some "text") (Some "50%") None None ].

Definition meter_heap : Heap := createTree_nodes meter.

Definition meter_node : CRAXNode := push_children (new_CRAXNode meter_m) [Some "t"].

(** A focusable node of role [ignored]. *)
Definition ignored_i : Protocol.AXNode :=
  record "i" (Some "ignored") (Some "")
    (Some [Protocol.mkAXProperty "focusable" (JBool true)]) None.

Definition ignored_heap : Heap := createTree_nodes [ignored_i].

Definition ignored_node : CRAXNode := push_children (new_CRAXNode ignored_i) [].

(** Two records that name each other as child. *)
Definition cyclic : list Protocol.AXNode :=
  [ record "a" (Some "generic") (Some "") None (Some ["b"]);
    record "b" (Some "generic") (Some "") None (Some ["a"]) ].

Definition cyclic_heap : Heap := createTree_nodes cyclic.

(** A snapshot whose records carry backend node ids. *)
Definition with_backend_ids : list Protocol.AXNode :=
  [ Protocol.mkAXNode "1" (Some "WebArea") (Some "") None None None
      (Some ["2"; "3"]) (Some 10%Z);
    Protocol.mkAXNode "2" (Some "generic") (Some "") None None None None None;
    Protocol.mkAXNode "3" (Some "button") (Some "go") None None None None
      (Some 30%Z) ].

Definition with_backend_ids_heap : Heap := createTree_nodes with_backend_ids.

(** A slider: properties in mixed case, a falsy boolean, the token ["false"],
    the number zero, and a [value] both as payload field and as property. *)
Definition slider : Protocol.AXNode :=
  Protocol.mkAXNode "s" (Some "slider") (Some "volume") (Some (JNum 5)) None
    (Some [Protocol.mkAXProperty "Disabled" (JBool true);
           Protocol.mkAXProperty "required" (JBool false);
           Protocol.mkAXProperty "invalid" (JStr "false");
           Protocol.mkAXProperty "orientation" (JStr "horizontal");
           Protocol.mkAXProperty "valuemin" (JNum 0);
           Protocol.mkAXProperty "value" (JStr "from the property list");
           Protocol.mkAXProperty "focusable" (JBool true)])
    None None.

Definition slider_node : CRAXNode := new_CRAXNode slider.

(** Two records of one id. *)
Definition repeated_id : list Protocol.AXNode :=
  [ record "1" (Some "WebArea") (Some "first") None None;
    record "1" (Some "button") (Some "last") None None ].

(** Nodes with a [checked] property and no [name]. *)
Definition checked_without_name : Protocol.AXNode :=
  record "c" (Some "checkbox") None
    (Some [Protocol.mkAXProperty "checked" (JStr "mixed")]) None.

Definition checked_true_without_name : Protocol.AXNode :=
  record "c" (Some "checkbox") None
    (Some [Protocol.mkAXProperty "checked" (JBool true)]) None.

(** ** The serializer *)

Section Serialization.

(** [String.prototype.toLowerCase]. It is the engine's function, not the
    repository's, and it is more than a map on ASCII letters; the model
    takes it as a parameter, so that what is proved of [serialize] holds
    whatever the lower-casing does to a property name. A string stands for
    the JavaScript string it encodes. *)
Variable toLowerCase : string -> string.

(** The [properties] map of [serialize], after its four writes. *)
Definition serialize_properties (this : CRAXNode) : gmap string jsval :=
  let payload := _payload this in
  let properties : gmap string jsval :=
    fold_left
      (fun m property =>
         <[toLowerCase (Protocol.property_name property)
           := Protocol.property_value property]> m)
      (default [] (Protocol.properties payload)) ∅ in
  let properties :=
    match Protocol.name payload with
    | Some v => <["name" := JStr v]> properties
    | None => properties
    end in
  let properties :=
    match Protocol.value payload with
    | Some v => <["value" := v]> properties
    | None => properties
    end in
  match Protocol.description payload with
  | Some v => <["description" := v]> properties
  | None => properties
  end.

(** [serialize()]. Reading [this._payload.name.value] throws when the payload
    has no [name]. *)
Definition serialize (this : CRAXNode) : completion SerializedAXNode :=
  let properties := serialize_properties this in
  match Protocol.name (_payload this) with
  | None => Throw TypeError
  | Some name_value =>
      let node : SerializedAXNode :=
        <["name" := JStr (str_or name_value "")]>
          (<["role" := JStr (_role this)]> ∅) in
      let node := fold_left (copy_if_present properties) userStringProperties node in
      let node := fold_left (boolean_step (_role this) properties) booleanProperties node in
      let node := fold_left (tristate_step properties) tristateProperties node in
      let node := fold_left (copy_if_present properties) numericalProperties node in
      let node := fold_left (token_step properties) tokenProperties node in
      Normal node
  end.

(** The value [properties.get(k)] has in [serialize] for a key [k] that is
    none of [name], [value], [description]: that of the last entry of the
    payload's property list whose lower-cased name is [k]. *)
Definition payload_property (payload : Protocol.AXNode) (k : string) : option jsval :=
  Protocol.property_value <$>
    List.find (fun q => String.eqb (toLowerCase (Protocol.property_name q)) k)
              (rev (default [] (Protocol.properties payload))).

(** [serialize] returns a record with [role] and [name], the defaults being
    ["unknown"] and the empty string. *)
Definition serialize_as_stated (payload : Protocol.AXNode) : Prop :=
  ∃ node, serialize (new_CRAXNode payload) = Normal node ∧
    node !! "role" = Some (JStr (default "unknown" (Protocol.role payload))) ∧
    node !! "name" = Some (JStr (default "" (Protocol.name payload))).

(** * Properties *)

(** ** The constructor *)

(** The constructor's loop writes the flags only. *)
Lemma constructor_properties_frame (l : list Protocol.AXProperty) (n : CRAXNode) :
  _payload (fold_left constructor_property l n) = _payload n ∧
  _children (fold_left constructor_property l n) = _children n ∧
  _name (fold_left constructor_property l n) = _name n ∧
  _role (fold_left constructor_property l n) = _role n.
Proof.
  revert n. induction l as [|q l IH]; intros n; [done|].
  cbn [fold_left]. destruct (IH (constructor_property n q)) as (-> & -> & -> & ->).
  unfold constructor_property.
  by repeat match goal with |- context [if ?b then _ else _] => destruct b end.
Qed.

Lemma new_CRAXNode_payload (payload : Protocol.AXNode) :
  _payload (new_CRAXNode payload) = payload.
Proof. unfold new_CRAXNode. by rewrite (proj1 (constructor_properties_frame _ _)). Qed.

Lemma new_CRAXNode_children (payload : Protocol.AXNode) :
  _children (new_CRAXNode payload) = [].
Proof.
  unfold new_CRAXNode.
  by rewrite (proj1 (proj2 (constructor_properties_frame _ _))).
Qed.

Lemma new_CRAXNode_role (payload : Protocol.AXNode) :
  _role (new_CRAXNode payload) = default "Unknown" (Protocol.role payload).
Proof.
  unfold new_CRAXNode.
  rewrite (proj2 (proj2 (proj2 (constructor_properties_frame _ _)))).
  by destruct (Protocol.role payload).
Qed.

(** ** Serialization *)

(** A loop over a list of keys whose body assigns at most the key at hand. *)
Lemma fold_assign_lookup
    (step : SerializedAXNode -> string -> SerializedAXNode)
    (f : string -> option jsval) :
  (∀ node k, step node k = match f k with
                           | Some v => <[k := v]> node
                           | None => node
                           end) ->
  ∀ ks node k,
    fold_left step ks node !! k =
    if existsb (String.eqb k) ks then from_option Some (node !! k) (f k)
    else node !! k.
Proof.
  intros Hstep ks. induction ks as [|a ks IH]; intros node k; simpl; [done|].
  rewrite IH, Hstep. destruct (String.eqb_spec k a) as [->|Hne]; simpl.
  - destruct (f a) as [v|] eqn:Hf; simpl.
    + by destruct (existsb _ ks); rewrite ?lookup_insert_eq.
    + by destruct (existsb _ ks).
  - assert ((match f a with Some v => <[a := v]> node | None => node end) !! k
            = node !! k) as ->; [|done].
    destruct (f a); [by rewrite lookup_insert_ne|done].
Qed.

Lemma copy_fold_lookup properties ks (node : SerializedAXNode) k :
  fold_left (copy_if_present properties) ks node !! k =
  if existsb (String.eqb k) ks then from_option Some (node !! k) (properties !! k)
  else node !! k.
Proof.
  apply (fold_assign_lookup _ (fun k => properties !! k)).
  intros node' k'. unfold copy_if_present. by destruct (properties !! k').
Qed.

Lemma boolean_fold_lookup role properties ks (node : SerializedAXNode) k :
  fold_left (boolean_step role properties) ks node !! k =
  if existsb (String.eqb k) ks
  then
    from_option Some (node !! k)
      (if String.eqb k "focused" && String.eqb role "WebArea" then None
       else if negb (truthy (map_get_or_undefined properties k)) then None
       else Some (map_get_or_undefined properties k))
  else node !! k.
Proof.
  apply (fold_assign_lookup _
           (fun k => if String.eqb k "focused" && String.eqb role "WebArea" then None
                     else if negb (truthy (map_get_or_undefined properties k)) then None
                     else Some (map_get_or_undefined properties k))).
  intros node' k'. unfold boolean_step.
  destruct (String.eqb k' "focused" && String.eqb role "WebArea"); [done|].
  by destruct (negb (truthy (map_get_or_undefined properties k'))).
Qed.

Lemma tristate_fold_lookup properties ks (node : SerializedAXNode) k :
  fold_left (tristate_step properties) ks node !! k =
  if existsb (String.eqb k) ks
  then from_option Some (node !! k) (tristate <$> properties !! k)
  else node !! k.
Proof.
  apply (fold_assign_lookup _ (fun k => tristate <$> properties !! k)).
  intros node' k'. unfold tristate_step. by destruct (properties !! k').
Qed.

Lemma token_fold_lookup properties ks (node : SerializedAXNode) k :
  fold_left (token_step properties) ks node !! k =
  if existsb (String.eqb k) ks
  then
    from_option Some (node !! k)
      (if negb (truthy (map_get_or_undefined properties k))
          || strict_eq_str (map_get_or_undefined properties k) "false"
       then None else Some (map_get_or_undefined properties k))
  else node !! k.
Proof.
  apply (fold_assign_lookup _
           (fun k => if negb (truthy (map_get_or_undefined properties k))
                        || strict_eq_str (map_get_or_undefined properties k) "false"
                     then None else Some (map_get_or_undefined properties k))).
  intros node' k'. unfold token_step.
  by destruct (negb (truthy (map_get_or_undefined properties k'))
               || strict_eq_str (map_get_or_undefined properties k') "false").
Qed.

Lemma Normal_inj {A} (a b : A) : Normal a = Normal b -> a = b.
Proof. congruence. Qed.

(** [serialize] throws exactly when the payload has no [name]. *)
Lemma serialize_throws this e :
  serialize this = Throw e -> Protocol.name (_payload this) = None.
Proof. unfold serialize. by destruct (Protocol.name (_payload this)). Qed.

Lemma serialize_returns this name_value :
  Protocol.name (_payload this) = Some name_value ->
  ∃ node, serialize this = Normal node.
Proof. unfold serialize. intros ->. eauto. Qed.

Lemma find_app_last {A} (f : A -> bool) (l : list A) (a : A) :
  List.find f (l ++ [a]) =
  match List.find f l with
  | Some x => Some x
  | None => if f a then Some a else None
  end.
Proof. induction l as [|b l IH]; simpl; [done|]. by destruct (f b). Qed.

(** The first loop of [serialize]: a later entry overwrites an earlier one
    of the same lower-cased name. *)
Lemma fold_insert_lookup (l : list Protocol.AXProperty) (m : gmap string jsval) k :
  fold_left (fun m property =>
               <[toLowerCase (Protocol.property_name property)
                 := Protocol.property_value property]> m) l m !! k =
  match List.find (fun q => String.eqb (toLowerCase (Protocol.property_name q)) k)
                  (rev l) with
  | Some q => Some (Protocol.property_value q)
  | None => m !! k
  end.
Proof.
  revert m. induction l as [|a l IH]; intros m; simpl; [done|].
  rewrite IH, find_app_last.
  destruct (List.find _ (rev l)); [done|].
  destruct (String.eqb_spec (toLowerCase (Protocol.property_name a)) k) as [->|Hne].
  - by rewrite lookup_insert_eq.
  - by rewrite lookup_insert_ne.
Qed.

Lemma serialize_properties_lookup this k :
  k ≠ "name" -> k ≠ "value" -> k ≠ "description" ->
  serialize_properties this !! k = payload_property (_payload this) k.
Proof.
  intros Hn Hv Hd. unfold serialize_properties, payload_property.
  destruct (Protocol.description (_payload this));
    destruct (Protocol.value (_payload this));
    destruct (Protocol.name (_payload this));
    rewrite ?lookup_insert_ne by done;
    rewrite fold_insert_lookup, lookup_empty;
    by destruct (List.find _ _).
Qed.

(** Membership of a literal key in a literal key list, by evaluation. *)
Ltac eval_key_tests :=
  repeat match goal with
  | |- context [existsb (String.eqb ?k) ?ks] =>
      let b := eval vm_compute in (existsb (String.eqb k) ks) in
      change (existsb (String.eqb k) ks) with b
  end;
  cbv iota.

(** The key [k] of the record that [serialize] builds, loop by loop. *)
Ltac serialize_lookup :=
  rewrite token_fold_lookup, copy_fold_lookup, tristate_fold_lookup,
    boolean_fold_lookup, copy_fold_lookup;
  eval_key_tests.

(** What [serialize] stores under a tristate key. *)
Lemma tristate_field_lookup this node k :
  k ∈ tristateProperties ->
  serialize this = Normal node ->
  node !! k = tristate <$> payload_property (_payload this) k.
Proof.
  intros Hk. unfold serialize.
  destruct (Protocol.name (_payload this)) as [nm|]; [|discriminate].
  intros Hnode. apply Normal_inj in Hnode. subst node.
  apply list_elem_of_In in Hk. unfold tristateProperties in Hk.
  destruct Hk as [<-|[<-|[]]];
    serialize_lookup;
    rewrite !lookup_insert_ne, lookup_empty by done;
    rewrite serialize_properties_lookup by done;
    by destruct (payload_property _ _).
Qed.

(** C1 (as amended). For every node whose payload has a [name] field,
    [serialize] returns a record that contains both [role] and [name]: the
    role is the payload's, or ["Unknown"] when the payload has none, and the
    name is the payload's (the empty string when it is empty). *)
Theorem serialize_role_name (payload : Protocol.AXNode) (cs : list (option ref))
    (name_value : string) :
  Protocol.name payload = Some name_value ->
  ∃ node,
    serialize (push_children (new_CRAXNode payload) cs) = Normal node ∧
    node !! "role" = Some (JStr (default "Unknown" (Protocol.role payload))) ∧
    node !! "name" = Some (JStr name_value).
Proof.
  intros Hname. unfold serialize. cbn [push_children _payload _role].
  rewrite new_CRAXNode_payload, new_CRAXNode_role, Hname.
  eexists. split; [reflexivity|].
  split; serialize_lookup.
  - by rewrite lookup_insert_ne, lookup_insert_eq.
  - rewrite lookup_insert_eq. unfold str_or.
    by destruct (String.eqb_spec name_value "") as [->|].
Qed.

(** C7. For every node whose role is [WebArea], the serialized record has no
    [focused] field, whatever the payload's properties are. ([serialize]
    returns a record unless the payload has no [name].) *)
Theorem serialize_WebArea_no_focused (this : CRAXNode) :
  _role this = "WebArea" ->
  match serialize this with
  | Normal node => node !! "focused" = None
  | Throw _ => Protocol.name (_payload this) = None
  end.
Proof.
  intros Hrole. unfold serialize.
  destruct (Protocol.name (_payload this)) as [nm|]; [|done].
  serialize_lookup. rewrite Hrole.
  change (String.eqb "focused" "focused" && String.eqb "WebArea" "WebArea") with true.
  cbn [from_option]. by rewrite !lookup_insert_ne, lookup_empty.
Qed.

(** The tristate keys [checked] and [pressed] in the record that a node
    with a [name] yields: when the property is absent the record has no such
    field; when it is present the field is there, and it is the string
    ["mixed"] for the value ["mixed"], the boolean [true] for the value
    ["true"], and the boolean [false] for every other value. *)
Lemma tristate_fields_of_named_node (this : CRAXNode) (k : string) :
  k ∈ tristateProperties ->
  match serialize this with
  | Throw _ => Protocol.name (_payload this) = None
  | Normal node =>
      match payload_property (_payload this) k with
      | None => node !! k = None
      | Some v =>
          (v = JStr "mixed" -> node !! k = Some (JStr "mixed")) ∧
          (v = JStr "true" -> node !! k = Some (JBool true)) ∧
          (v ≠ JStr "mixed" -> v ≠ JStr "true" -> node !! k = Some (JBool false))
      end
  end.
Proof.
  intros Hk. destruct (serialize this) as [node|e] eqn:Hs;
    [|by apply serialize_throws in Hs].
  rewrite (tristate_field_lookup this node k Hk Hs).
  destruct (payload_property (_payload this) k) as [v|]; [|done].
  cbn [fmap option_fmap option_map]. repeat split.
  - by intros ->.
  - by intros ->.
  - intros Hm Ht. unfold tristate, strict_eq_str. destruct v as [| |b|z|s]; try done.
    destruct (String.eqb_spec s "mixed") as [->|_]; [done|].
    by destruct (String.eqb_spec s "true") as [->|_].
Qed.

(** In the record that a node with a [name] yields, a tristate property
    ([checked] or [pressed]) whose value is the boolean [true], not the
    string ["true"], is the boolean [false]. *)
Lemma tristate_boolean_true_of_named_node (this : CRAXNode) (k : string) :
  k ∈ tristateProperties ->
  payload_property (_payload this) k = Some (JBool true) ->
  match serialize this with
  | Throw _ => Protocol.name (_payload this) = None
  | Normal node => node !! k = Some (JBool false)
  end.
Proof.
  intros Hk Hv. destruct (serialize this) as [node|e] eqn:Hs;
    [|by apply serialize_throws in Hs].
  by rewrite (tristate_field_lookup this node k Hk Hs), Hv.
Qed.

Lemma role_in_elem_of (role : string) (cases : list string) :
  role_in role cases = true ↔ role ∈ cases.
Proof.
  unfold role_in. rewrite existsb_exists. split.
  - intros (c & Hin & Heq). apply String.eqb_eq in Heq. subst c.
    by apply list_elem_of_In.
  - intros Hin. exists role. split; [by apply list_elem_of_In|apply String.eqb_refl].
Qed.

(** ** The other fields of the serialized record *)

(** Comparisons of two literal strings, by evaluation. *)
Ltac eval_literal_eqb :=
  repeat match goal with
  | |- context [String.eqb ?a ?b] =>
      let v := eval vm_compute in (String.eqb a b) in
      match v with
      | true => change (String.eqb a b) with true
      | false => change (String.eqb a b) with false
      end
  end.

Lemma existsb_eqb_elem_of (k : string) (ks : list string) :
  existsb (String.eqb k) ks = true -> k ∈ ks.
Proof. intros H. by apply role_in_elem_of. Qed.

(** X3. Whatever the payload holds, the serialized record has no key other
    than [role], [name] and the twenty-three listed property names: a
    property of any other name (such as [focusable], [editable] or
    [hidden]) is never copied. *)
Theorem serialize_keys (this : CRAXNode) :
  match serialize this with
  | Normal node => ∀ k, is_Some (node !! k) -> k ∈ serialized_keys
  | Throw _ => Protocol.name (_payload this) = None
  end.
Proof.
  unfold serialize. destruct (Protocol.name (_payload this)) as [nm|]; [|done].
  intros k. rewrite token_fold_lookup, copy_fold_lookup, tristate_fold_lookup,
    boolean_fold_lookup, copy_fold_lookup.
  unfold serialized_keys. rewrite !elem_of_app.
  destruct (existsb (String.eqb k) tokenProperties) eqn:Htok;
    [intros _; do 5 right; by apply existsb_eqb_elem_of|].
  destruct (existsb (String.eqb k) numericalProperties) eqn:Hnum;
    [intros _; do 4 right; left; by apply existsb_eqb_elem_of|].
  destruct (existsb (String.eqb k) tristateProperties) eqn:Htri;
    [intros _; do 3 right; left; by apply existsb_eqb_elem_of|].
  destruct (existsb (String.eqb k) booleanProperties) eqn:Hbool;
    [intros _; do 2 right; left; by apply existsb_eqb_elem_of|].
  destruct (existsb (String.eqb k) userStringProperties) eqn:Hus;
    [intros _; right; left; by apply existsb_eqb_elem_of|].
  intros Hk. left.
  destruct (decide (k = "name")) as [->|Hname]; [right; left|].
  destruct (decide (k = "role")) as [->|Hrole]; [left|].
  rewrite !lookup_insert_ne, lookup_empty in Hk by done. by destruct Hk.
Qed.

(** X4. A boolean field ([disabled], [expanded], [focused], ...) is in the
    record exactly when the property is there with a truthy value, and then
    with that very value; a property that is absent or falsy leaves no
    field, so [false] is never written. ([focused] on a [WebArea] is the
    exception.) *)
Theorem serialize_boolean_fields (this : CRAXNode) (k : string) :
  k ∈ booleanProperties ->
  (k = "focused" -> _role this ≠ "WebArea") ->
  match serialize this with
  | Throw _ => Protocol.name (_payload this) = None
  | Normal node =>
      node !! k =
      match payload_property (_payload this) k with
      | Some v => if truthy v then Some v else None
      | None => None
      end
  end.
Proof.
  intros Hk Hfocused. unfold serialize.
  destruct (Protocol.name (_payload this)) as [nm|]; [|done].
  apply list_elem_of_In in Hk. unfold booleanProperties in Hk.
  assert (String.eqb k "focused" && String.eqb (_role this) "WebArea" = false) as Hskip.
  { destruct (String.eqb_spec k "focused") as [Hf|_]; [|done].
    by rewrite (proj2 (String.eqb_neq _ _) (Hfocused Hf)). }
  repeat (destruct Hk as [<-|Hk]); [..|done];
    serialize_lookup; rewrite Hskip;
    rewrite !lookup_insert_ne, lookup_empty by done;
    unfold map_get_or_undefined;
    rewrite serialize_properties_lookup by done;
    (destruct (payload_property _ _) as [v|]; unfold default; cbn [from_option id];
     [by destruct (truthy v)|reflexivity]).
Qed.

(** X5. A token field ([autocomplete], [haspopup], [invalid],
    [orientation]) is in the record exactly when the property is there with
    a truthy value other than the string ["false"], and then with that very
    value. *)
Theorem serialize_token_fields (this : CRAXNode) (k : string) :
  k ∈ tokenProperties ->
  match serialize this with
  | Throw _ => Protocol.name (_payload this) = None
  | Normal node =>
      node !! k =
      match payload_property (_payload this) k with
      | Some v => if truthy v && negb (strict_eq_str v "false") then Some v else None
      | None => None
      end
  end.
Proof.
  intros Hk. unfold serialize.
  destruct (Protocol.name (_payload this)) as [nm|]; [|done].
  apply list_elem_of_In in Hk. unfold tokenProperties in Hk.
  repeat (destruct Hk as [<-|Hk]); [..|done];
    serialize_lookup; eval_literal_eqb; cbn [andb];
    rewrite !lookup_insert_ne, lookup_empty by done;
    unfold map_get_or_undefined;
    rewrite serialize_properties_lookup by done;
    (destruct (payload_property _ _) as [v|]; unfold default; cbn [from_option id];
     [by destruct (truthy v), (strict_eq_str v "false")|reflexivity]).
Qed.

(** X6. A numeric field ([level], [valuemax], [valuemin]) and the string
    fields [keyshortcuts], [roledescription], [valuetext] are in the record
    exactly when the property is there, with its value unchanged, be it
    falsy (the number zero is written). *)
Theorem serialize_copied_fields (this : CRAXNode) (k : string) :
  k ∈ (numericalProperties ++ ["keyshortcuts"; "roledescription"; "valuetext"])%list ->
  match serialize this with
  | Throw _ => Protocol.name (_payload this) = None
  | Normal node => node !! k = payload_property (_payload this) k
  end.
Proof.
  intros Hk. unfold serialize.
  destruct (Protocol.name (_payload this)) as [nm|]; [|done].
  apply list_elem_of_In in Hk. unfold numericalProperties in Hk. cbn [app] in Hk.
  repeat (destruct Hk as [<-|Hk]); [..|done];
    serialize_lookup; eval_literal_eqb; cbn [andb];
    rewrite !lookup_insert_ne, lookup_empty by done;
    rewrite serialize_properties_lookup by done;
    by destruct (payload_property _ _).
Qed.

Lemma serialize_properties_dedicated (this : CRAXNode) :
  serialize_properties this !! "value" =
    match Protocol.value (_payload this) with
    | Some v => Some v
    | None => payload_property (_payload this) "value"
    end ∧
  serialize_properties this !! "description" =
    match Protocol.description (_payload this) with
    | Some v => Some v
    | None => payload_property (_payload this) "description"
    end.
Proof.
  unfold serialize_properties, payload_property.
  destruct (Protocol.description (_payload this));
    destruct (Protocol.value (_payload this));
    destruct (Protocol.name (_payload this));
    split;
    repeat (rewrite lookup_insert_eq || rewrite lookup_insert_ne by done);
    rewrite ?fold_insert_lookup, ?lookup_empty;
    try done; by destruct (List.find _ _).
Qed.

(** X7. The [value] and [description] of the record are the payload's own
    [value] and [description] fields when it has them, whatever the property
    list says; only without the field does a property of that name show. *)
Theorem serialize_value_description (this : CRAXNode) :
  match serialize this with
  | Throw _ => Protocol.name (_payload this) = None
  | Normal node =>
      node !! "value" =
        match Protocol.value (_payload this) with
        | Some v => Some v
        | None => payload_property (_payload this) "value"
        end ∧
      node !! "description" =
        match Protocol.description (_payload this) with
        | Some v => Some v
        | None => payload_property (_payload this) "description"
        end
  end.
Proof.
  unfold serialize. destruct (Protocol.name (_payload this)) as [nm|]; [|done].
  destruct (serialize_properties_dedicated this) as [Hv Hd].
  split; serialize_lookup; eval_literal_eqb; cbn [andb];
    rewrite !lookup_insert_ne, lookup_empty by done.
  - rewrite Hv. clear Hv Hd.
    destruct (Protocol.value (_payload this)); [reflexivity|].
    destruct (payload_property (_payload this) "value"); reflexivity.
  - rewrite Hd. clear Hv Hd.
    destruct (Protocol.description (_payload this)); [reflexivity|].
    destruct (payload_property (_payload this) "description"); reflexivity.
Qed.

(** C8. The claim fails on the code for a node that has a [checked]
    property and no [name]: [serialize] reads [this._payload.name.value]
    before it writes any field, and throws. (With a [name] the field is
    written as the claim says, [tristate_fields_of_named_node].) *)
Theorem serialize_checked_without_name_throws :
  Protocol.name checked_without_name = None ∧
  Protocol.properties checked_without_name
  = Some [Protocol.mkAXProperty "checked" (JStr "mixed")] ∧
  serialize (new_CRAXNode checked_without_name) = Throw TypeError.
Proof.
  split; [reflexivity|]. split; [reflexivity|].
  unfold serialize. by rewrite new_CRAXNode_payload.
Qed.

(** C10. The claim fails on the code for a node whose [checked] property is
    the boolean [true] and that has no [name]: [serialize] throws before it
    writes any field. (With a [name] the field is the boolean [false],
    [tristate_boolean_true_of_named_node].) *)
Theorem serialize_checked_true_without_name_throws :
  Protocol.name checked_true_without_name = None ∧
  Protocol.properties checked_true_without_name
  = Some [Protocol.mkAXProperty "checked" (JBool true)] ∧
  serialize (new_CRAXNode checked_true_without_name) = Throw TypeError.
Proof.
  split; [reflexivity|]. split; [reflexivity|].
  unfold serialize. by rewrite new_CRAXNode_payload.
Qed.

End Serialization.

(** ** The serializer on the sample payloads *)

Lemma serialize_role_name_witness :
  Protocol.name no_role = Some "title" ∧
  ∃ node,
    serialize toLowerCase_ascii (push_children (new_CRAXNode no_role) []) = Normal node ∧
    node !! "role" = Some (JStr (default "Unknown" (Protocol.role no_role))) ∧
    node !! "name" = Some (JStr "title").
Proof. split; [reflexivity|]. apply (serialize_role_name toLowerCase_ascii no_role [] "title"). reflexivity. Defined.

(** C1 (as stated) fails: without [role] the default is ["Unknown"], not
    ["unknown"], and without [name] the call throws. *)
Lemma serialize_as_stated_fails :
  ¬ serialize_as_stated toLowerCase_ascii no_role ∧ ¬ serialize_as_stated toLowerCase_ascii no_name.
Proof.
  split; intros (node & Hs & Hrole & Hname).
  - vm_compute in Hs. injection Hs as <-. vm_compute in Hrole. discriminate.
  - vm_compute in Hs. discriminate.
Qed.

Lemma serialize_WebArea_no_focused_witness :
  _role scenario_root = "WebArea" ∧
  match serialize toLowerCase_ascii scenario_root with
  | Normal node => node !! "focused" = None
  | Throw _ => Protocol.name (_payload scenario_root) = None
  end.
Proof.
  split; [reflexivity|]. apply (serialize_WebArea_no_focused toLowerCase_ascii scenario_root).
  reflexivity.
Defined.

Lemma serialize_boolean_fields_witness :
  "disabled" ∈ booleanProperties ∧
  ("disabled" = "focused" -> _role slider_node ≠ "WebArea") ∧
  match serialize toLowerCase_ascii slider_node with
  | Throw _ => Protocol.name (_payload slider_node) = None
  | Normal node =>
      node !! "disabled" =
      match payload_property toLowerCase_ascii (_payload slider_node) "disabled" with
      | Some v => if truthy v then Some v else None
      | None => None
      end
  end.
Proof.
  assert ("disabled" ∈ booleanProperties) as Hk by left.
  assert ("disabled" = "focused" -> _role slider_node ≠ "WebArea") as Hf by discriminate.
  split; [exact Hk|]. split; [exact Hf|].
  exact (serialize_boolean_fields toLowerCase_ascii slider_node "disabled" Hk Hf).
Defined.

Lemma serialize_token_fields_witness :
  "invalid" ∈ tokenProperties ∧
  match serialize toLowerCase_ascii slider_node with
  | Throw _ => Protocol.name (_payload slider_node) = None
  | Normal node =>
      node !! "invalid" =
      match payload_property toLowerCase_ascii (_payload slider_node) "invalid" with
      | Some v => if truthy v && negb (strict_eq_str v "false") then Some v else None
      | None => None
      end
  end.
Proof.
  assert ("invalid" ∈ tokenProperties) as Hk by (do 2 right; left).
  split; [exact Hk|]. exact (serialize_token_fields toLowerCase_ascii slider_node "invalid" Hk).
Defined.

Lemma serialize_copied_fields_witness :
  "valuemin" ∈ (numericalProperties
                ++ ["keyshortcuts"; "roledescription"; "valuetext"])%list ∧
  match serialize toLowerCase_ascii slider_node with
  | Throw _ => Protocol.name (_payload slider_node) = None
  | Normal node => node !! "valuemin" = payload_property toLowerCase_ascii (_payload slider_node) "valuemin"
  end.
Proof.
  assert ("valuemin" ∈ (numericalProperties
                        ++ ["keyshortcuts"; "roledescription"; "valuetext"])%list) as Hk
    by (do 2 right; left).
  split; [exact Hk|]. exact (serialize_copied_fields toLowerCase_ascii slider_node "valuemin" Hk).
Defined.

(** The root of the scenario: [focused] is dropped, [checked: true] becomes
    [false], [pressed: "mixed"] stays ["mixed"]. *)
Example serialize_scenario_root :
  map_get scenario_heap "R" = Some scenario_root ∧
  ∃ node, serialize toLowerCase_ascii scenario_root = Normal node ∧
    map_to_list node =
    [("checked", JBool false); ("name", JStr "page"); ("role", JStr "WebArea");
     ("pressed", JStr "mixed")].
Proof. split; [reflexivity|]. eexists. split; [reflexivity|]. vm_compute. reflexivity. Qed.

(** The slider: [Disabled] is found under its lower-cased name, the falsy
    [required] and the token ["false"] leave no field, zero is written, and
    the payload's [value] hides the property of that name. *)
Example serialize_slider :
  serialize toLowerCase_ascii slider_node =
  Normal (list_to_map
            [("role", JStr "slider"); ("name", JStr "volume"); ("value", JNum 5);
             ("disabled", JBool true); ("valuemin", JNum 0);
             ("orientation", JStr "horizontal")]).
Proof. vm_compute. reflexivity. Qed.

(** ** Classification of a node by its own fields *)

(** C3 (as amended). [_isPlainTextField] is false for a richly editable
    node; otherwise true for an editable one; otherwise true exactly when
    the role is one of ["textbox"], ["ComboBox"], ["searchbox"]. *)
Theorem isPlainTextField_rule (n : CRAXNode) :
  plain_text_rule ["textbox"; "ComboBox"; "searchbox"] n.
Proof.
  unfold plain_text_rule, _isPlainTextField.
  split; [|split; [|intros Hr He; split]].
  - by intros ->.
  - by intros -> ->.
  - intros Hb. rewrite Hr, He in Hb. apply role_in_elem_of.
    unfold role_in. cbn [existsb]. by rewrite orb_false_r, orb_assoc.
  - intros Hin. rewrite Hr, He. apply role_in_elem_of in Hin.
    unfold role_in in Hin. cbn [existsb] in Hin.
    by rewrite orb_false_r, orb_assoc in Hin.
Qed.

(** C3 (as stated) fails for a node of role ["combobox"] that is not
    editable: the specification makes it a plain text field, the code does
    not. *)
Lemma isPlainTextField_as_stated_fails :
  ¬ isPlainTextField_as_stated (new_CRAXNode combobox).
Proof.
  intros (_ & _ & H).
  assert (_isPlainTextField (new_CRAXNode combobox) = true) as Hcode.
  { apply H; [reflexivity|reflexivity|]. right; left. }
  vm_compute in Hcode. discriminate.
Qed.

(** ** Tree construction *)

Lemma map_get_map_set {V} (m : list (string * V)) k v k' :
  map_get (map_set m k v) k' = if String.eqb k k' then Some v else map_get m k'.
Proof.
  induction m as [|[k0 v0] m IH]; simpl; [done|].
  destruct (String.eqb_spec k0 k) as [->|Hne]; simpl.
  - by destruct (String.eqb k k').
  - rewrite IH. destruct (String.eqb_spec k0 k') as [->|Hne'].
    + by rewrite (proj2 (String.eqb_neq k k')).
    + done.
Qed.

Lemma map_set_head_key {V} (m : list (string * V)) k v :
  fst <$> head (map_set m k v) =
  match m with [] => Some k | e :: _ => Some (fst e) end.
Proof.
  destruct m as [|[k0 v0] m]; simpl; [done|].
  by destruct (String.eqb_spec k0 k) as [->|Hne].
Qed.

(** The first loop: the object under [r] is made from the last record whose
    id is [r]. *)
Lemma first_loop_lookup (payloads : list Protocol.AXNode) (m : Heap) r :
  map_get (fold_left (fun m payload =>
                        map_set m (Protocol.nodeId payload) (new_CRAXNode payload))
                     payloads m) r =
  match List.find (fun p => String.eqb (Protocol.nodeId p) r) (rev payloads) with
  | Some p => Some (new_CRAXNode p)
  | None => map_get m r
  end.
Proof.
  revert m. induction payloads as [|p l IH]; intros m; simpl; [done|].
  rewrite IH, find_app_last, map_get_map_set.
  destruct (List.find _ (rev l)); [done|].
  by destruct (String.eqb (Protocol.nodeId p) r).
Qed.

(** The first loop: the first key is the id of the first record. *)
Lemma first_loop_head (payloads : list Protocol.AXNode) (m : Heap) :
  fst <$> head (fold_left (fun m payload =>
                             map_set m (Protocol.nodeId payload) (new_CRAXNode payload))
                          payloads m) =
  match m with
  | [] => Protocol.nodeId <$> head payloads
  | e :: _ => Some (fst e)
  end.
Proof.
  revert m. induction payloads as [|p l IH]; intros m; simpl; [by destruct m|].
  rewrite IH. pose proof (map_set_head_key m (Protocol.nodeId p) (new_CRAXNode p)) as Hh.
  destruct (map_set m (Protocol.nodeId p) (new_CRAXNode p)) as [|e' m'] eqn:Hset;
    destruct m as [|e m]; simpl in *; congruence.
Qed.

Lemma map_get_map_values {V W} (f : V -> W) (m : list (string * V)) r :
  map_get (map (fun entry => (fst entry, f (snd entry))) m) r = f <$> map_get m r.
Proof.
  induction m as [|[k v] m IH]; simpl; [done|]. by destruct (String.eqb k r).
Qed.

Lemma find_last_record (payloads : list Protocol.AXNode) r :
  is_Some (List.find (fun p => String.eqb (Protocol.nodeId p) r) (rev payloads))
  ↔ r ∈ Protocol.nodeId <$> payloads.
Proof.
  split.
  - intros [p Hp]. apply find_some in Hp as [Hin Heq].
    apply String.eqb_eq in Heq. subst r. apply list_elem_of_fmap.
    exists p. split; [done|]. apply list_elem_of_In. by apply in_rev.
  - intros Hin. apply list_elem_of_fmap in Hin as (p & -> & Hin).
    destruct (List.find _ (rev payloads)) as [q|] eqn:Hf; [by eexists|].
    exfalso. assert (In p (rev payloads)) as Hrev.
    { apply in_rev. rewrite rev_involutive. by apply list_elem_of_In. }
    pose proof (find_none _ _ Hf p Hrev) as Hn. simpl in Hn.
    by rewrite String.eqb_refl in Hn.
Qed.

(** The second loop fills [_children] and nothing else. *)
Lemma createTree_nodes_lookup (payloads : list Protocol.AXNode) r :
  map_get (createTree_nodes payloads) r =
  (fun p => push_children (new_CRAXNode p)
              (map (fun childId =>
                      if bool_decide (childId ∈ Protocol.nodeId <$> payloads)
                      then Some childId else None)
                   (default [] (Protocol.childIds p))))
  <$> List.find (fun p => String.eqb (Protocol.nodeId p) r) (rev payloads).
Proof.
  unfold createTree_nodes. cbv zeta.
  set (nodeById := fold_left _ payloads []).
  rewrite (map_get_map_values
             (fun node => push_children node
                (map (get_child nodeById)
                     (default [] (Protocol.childIds (_payload node)))))).
  unfold nodeById at 2. rewrite first_loop_lookup. simpl.
  destruct (List.find _ (rev payloads)) as [p|]; [|done]. simpl.
  rewrite new_CRAXNode_payload. do 2 f_equal.
  apply map_ext. intros childId. unfold get_child, nodeById.
  rewrite first_loop_lookup. simpl.
  pose proof (find_last_record payloads childId) as Hiff.
  destruct (List.find _ (rev payloads)) as [q|].
  - rewrite bool_decide_eq_true_2; [done|]. apply Hiff. by eexists.
  - rewrite bool_decide_eq_false_2; [done|]. intros Hin.
    by apply Hiff in Hin as [x Hx].
Qed.

(** C2 (as amended). Tree construction never fails. The node stored under
    an id is the constructor's node for the last record of that id (the
    only one, when the ids are distinct), with one entry per child id of
    that record, in order: a reference to the node stored under the child
    id when some record has that id, [undefined] otherwise. The call
    returns the node stored under the id of the first record; for an empty
    input it returns [undefined]. *)
Theorem createTree_never_fails (payloads : list Protocol.AXNode) :
  ∃ heap root,
    createTree payloads = Normal (heap, root) ∧
    root = Protocol.nodeId <$> head payloads ∧
    (∀ r, root = Some r -> is_Some (map_get heap r)) ∧
    (∀ r,
       map_get heap r =
       (fun p =>
          push_children (new_CRAXNode p)
            (map (fun childId =>
                    if bool_decide (childId ∈ Protocol.nodeId <$> payloads)
                    then Some childId else None)
                 (default [] (Protocol.childIds p))))
       <$> List.find (fun p => String.eqb (Protocol.nodeId p) r) (rev payloads)) ∧
    (∀ r, is_Some (map_get heap r) ↔ r ∈ Protocol.nodeId <$> payloads) ∧
    (∀ r node, map_get heap r = Some node ->
       _children node =
       map (fun childId =>
              if bool_decide (childId ∈ Protocol.nodeId <$> payloads)
              then Some childId else None)
           (default [] (Protocol.childIds (_payload node)))).
Proof.
  assert (∀ r, is_Some (map_get (createTree_nodes payloads) r)
               ↔ r ∈ Protocol.nodeId <$> payloads) as Hdom.
  { intros r. rewrite createTree_nodes_lookup, fmap_is_Some.
    apply find_last_record. }
  assert (fst <$> head (createTree_nodes payloads) = Protocol.nodeId <$> head payloads)
    as Hroot.
  { unfold createTree_nodes. cbv zeta.
    rewrite <- (first_loop_head payloads []).
    by destruct (fold_left _ payloads []) as [|[k v] m]. }
  eexists _, _. split; [reflexivity|].
  split; [exact Hroot|]. split; [|split; [|split]].
  - intros r Hr. rewrite Hroot in Hr. apply Hdom.
    destruct payloads as [|p rest]; [done|]. injection Hr as <-. left.
  - intros r. apply createTree_nodes_lookup.
  - exact Hdom.
  - intros r node. rewrite createTree_nodes_lookup.
    destruct (List.find _ (rev payloads)) as [p|]; [|done].
    intros [= <-]. unfold push_children. cbn [_children _payload].
    by rewrite new_CRAXNode_children, new_CRAXNode_payload.
Qed.

(** C2 (as stated) fails: with the child id ["x9"] that no record has,
    [createTree] returns the root with an [undefined] child; with no record
    it returns [undefined]. Neither call throws. *)
Lemma createTree_as_stated_fails :
  ¬ createTree_as_stated dangling ∧ ¬ createTree_as_stated [] ∧
  createTree dangling
  = Normal ([("r", push_children (new_CRAXNode (record "r" (Some "WebArea")
                                       (Some "") None (Some ["x9"]))) [None])],
            Some "r") ∧
  createTree [] = Normal ([], None).
Proof.
  split; [|split; [|split; reflexivity]].
  - intros H. destruct H as [e He]; [|discriminate].
    right. exists (record "r" (Some "WebArea") (Some "") None (Some ["x9"])), "x9".
    split; [left|]. split; [left|].
    intros Hin. apply list_elem_of_In in Hin. simpl in Hin.
    destruct Hin as [Hin|[]]. discriminate.
  - intros H. destruct H as [e He]; [by left|discriminate].
Qed.

(** Two records of one id: the node of the second is stored, under the
    key at the place of the first, and returned. *)
Example createTree_repeated_id :
  createTree repeated_id
  = Normal ([("1", new_CRAXNode (record "1" (Some "button") (Some "last") None None))],
            Some "1").
Proof. reflexivity. Qed.

(** The scenario: the tree has the shape [R -> [A, B]], [A -> [C]] and [R]
    is returned. *)
Example createTree_scenario :
  createTree scenario = Normal (scenario_heap, Some "R") ∧
  map (fun entry => (fst entry, _children (snd entry))) scenario_heap
  = [("R", [Some "A"; Some "B"]); ("A", [Some "C"]); ("B", []); ("C", [])].
Proof. split; reflexivity. Qed.

(** The scenario: [A] is a control and [C] is a text-only object. *)
Example classify_scenario :
  isControl scenario_button = true ∧ _isTextOnlyObject scenario_text = true ∧
  _isPlainTextField scenario_button = false.
Proof. repeat split; reflexivity. Qed.

(** ** The focusable-descendant flag *)

Section Tree.
Variable heap : Heap.

Lemma child_of_lookup r node c :
  map_get heap r = Some node -> (child_of heap r c ↔ Some c ∈ _children node).
Proof.
  intros Hr. split.
  - intros (node' & Hr' & Hin). congruence.
  - intros Hin. by exists node.
Qed.

Lemma tree_ok_lookup k r :
  tree_ok k heap r = true ->
  ∃ k' node, k = S k' ∧ map_get heap r = Some node ∧
    ∀ c, c ∈ _children node -> ∃ c', c = Some c' ∧ tree_ok k' heap c' = true.
Proof.
  destruct k as [|k']; [done|]. simpl.
  destruct (map_get heap r) as [node|]; [|done].
  intros Hall. exists k', node. split; [done|]. split; [done|].
  intros c Hc. rewrite forallb_forall in Hall.
  apply list_elem_of_In in Hc. specialize (Hall c Hc).
  destruct c as [c'|]; [|done]. by exists c'.
Qed.

Lemma tree_ok_mono k k' r :
  tree_ok k heap r = true -> (k ≤ k')%nat -> tree_ok k' heap r = true.
Proof.
  revert k' r. induction k as [|k IH]; intros k' r Hok Hle; [done|].
  destruct k' as [|k']; [lia|]. simpl in *.
  destruct (map_get heap r) as [node|]; [|done].
  rewrite forallb_forall in *. intros c Hc. specialize (Hok c Hc).
  destruct c as [c|]; [|done]. apply IH; [done|lia].
Qed.

Lemma tree_ok_child k r c :
  tree_ok (S k) heap r = true -> child_of heap r c -> tree_ok k heap c = true.
Proof.
  intros Hok (node & Hr & Hin).
  apply tree_ok_lookup in Hok as (k' & node' & [= <-] & Hr' & Hall).
  assert (node' = node) as -> by congruence.
  destruct (Hall _ Hin) as (c' & [= <-] & Hc). done.
Qed.

Lemma tree_ok_reachable k r d :
  tree_ok k heap r = true -> rtc (child_of heap) r d -> tree_ok k heap d = true.
Proof.
  intros Hok Hrtc. induction Hrtc as [|x y z Hxy _ IH]; [done|].
  apply IH. destruct k as [|k]; [done|].
  apply (tree_ok_mono k); [|lia]. by apply (tree_ok_child k x).
Qed.

(** A node of a tree is not below one of its children. *)
Lemma tree_ok_acyclic k r c :
  tree_ok k heap r = true -> child_of heap r c -> ¬ rtc (child_of heap) c r.
Proof.
  revert r c. induction k as [|k IH]; intros r c Hok Hc Hrtc; [done|].
  assert (tree_ok k heap r = true) as Hok'.
  { apply (tree_ok_reachable k c r); [|done]. by apply (tree_ok_child k r). }
  by apply (IH r c).
Qed.

(** A node has a focusable descendant when one of its children is
    focusable or has one. *)
Lemma has_focusable_descendant_unfold r :
  has_focusable_descendant heap r ↔
  ∃ c, child_of heap r c ∧ (focusable_at heap c ∨ has_focusable_descendant heap c).
Proof.
  unfold has_focusable_descendant, descendant. split.
  - intros (d & Htc & Hd). inversion Htc as [x y Hxy|x y z Hxy Hyz]; subst.
    + exists d. by split; [|left].
    + exists y. split; [done|]. right. by exists d.
  - intros (c & Hc & [Hf|(d & Htc & Hd)]).
    + exists c. split; [by apply tc_once|done].
    + exists d. split; [by eapply tc_l|done].
Qed.

Lemma cache_extends_refl cache : cache_extends heap cache cache.
Proof. split; [done|]. intros d b Hn Hs. congruence. Qed.

Lemma cache_extends_sound_at cache cache' d :
  cache_extends heap cache cache' ->
  cache_sound_at heap cache d -> cache_sound_at heap cache' d.
Proof.
  intros [Hkeep Hnew] Hs b Hb.
  destruct (cache !! d) as [b'|] eqn:Hd.
  - specialize (Hkeep _ _ Hd). assert (b' = b) as -> by congruence. by apply Hs.
  - by apply (Hnew d).
Qed.

(** The loop of [_hasFocusableChild] at [r], given that the calls on the
    children are right: it leaves the field of [r] set to whether one of
    the entries is focusable or has a focusable descendant. *)
Lemma hasFocusableChild_loop_correct
    (rec : Cache -> ref -> option (completion (bool * Cache))) k r :
  (∀ cache c,
     tree_ok k heap c = true ->
     (∀ d, rtc (child_of heap) c d -> cache_sound_at heap cache d) ->
     ∃ b cache', rec cache c = Some (Normal (b, cache')) ∧
       (b = true ↔ has_focusable_descendant heap c) ∧
       cache_extends heap cache cache') ->
  ∀ cs cache1,
    (∀ c, c ∈ cs -> ∃ c', c = Some c' ∧ tree_ok k heap c' = true) ->
    cache1 !! r = Some false ->
    (∀ c d, Some c ∈ cs -> rtc (child_of heap) c d -> cache_sound_at heap cache1 d) ->
    ∃ cache2 b,
      hasFocusableChild_loop rec heap r cs cache1 = Some (Normal cache2) ∧
      cache2 !! r = Some b ∧
      (b = true ↔
       ∃ c, Some c ∈ cs ∧ (focusable_at heap c ∨ has_focusable_descendant heap c)) ∧
      (∀ d x, d ≠ r -> cache1 !! d = Some x -> cache2 !! d = Some x) ∧
      (∀ d x, cache1 !! d = None -> cache2 !! d = Some x ->
         (x = true ↔ has_focusable_descendant heap d)).
Proof.
  intros Hrec cs. induction cs as [|c cs IH]; intros cache1 Hcs Hr Hsound.
  { exists cache1, false. split; [done|]. split; [done|]. split; [|split].
    - split; [done|]. intros (c & Hc & _). by apply elem_of_nil in Hc.
    - done.
    - intros d x Hn Hs. congruence. }
  destruct (Hcs c) as (c' & -> & Hok); [by left|].
  destruct (tree_ok_lookup _ _ Hok) as (k' & cn & -> & Hcn & _).
  cbn [hasFocusableChild_loop]. rewrite Hcn.
  assert (∀ d, cache1 !! d = None -> d ≠ r) as Hfresh by (intros d Hn ->; congruence).
  destruct (_focusable cn) eqn:Hfoc.
  { exists (<[r := true]> cache1), true. split; [done|].
    split; [by rewrite lookup_insert_eq|]. split; [|split].
    - split; [|done]. intros _. exists c'. split; [by left|]. left. by exists cn.
    - intros d x Hd Hx. by rewrite lookup_insert_ne.
    - intros d x Hn Hx. rewrite lookup_insert_ne in Hx by (symmetry; by eapply Hfresh).
      congruence. }
  destruct (Hrec cache1 c' Hok) as (bc & cache1' & -> & Hbc & Hkeep & Hnew).
  { intros d Hd. apply (Hsound c'); [by left|done]. }
  destruct bc.
  { exists (<[r := true]> cache1'), true. split; [done|].
    split; [by rewrite lookup_insert_eq|]. split; [|split].
    - split; [|done]. intros _. exists c'. split; [by left|]. right. by apply Hbc.
    - intros d x Hd Hx. rewrite lookup_insert_ne by done. by apply Hkeep.
    - intros d x Hn Hx. rewrite lookup_insert_ne in Hx by (symmetry; by eapply Hfresh).
      by apply (Hnew d). }
  destruct (IH cache1') as (cache2 & b & -> & Hb & Hiff & Hkeep2 & Hnew2).
  { intros c Hc. apply Hcs. by right. }
  { by apply Hkeep. }
  { intros c d Hc Hd. apply (cache_extends_sound_at cache1); [by split|].
    apply (Hsound c); [by right|done]. }
  exists cache2, b. split; [done|]. split; [done|]. split; [|split].
  - rewrite Hiff. split.
    + intros (c & Hc & H). exists c. split; [by right|done].
    + intros (c & Hc & H). apply elem_of_cons in Hc as [[= ->]|Hc].
      * destruct H as [(cn' & Hcn' & Hf)|H]; [congruence|].
        apply Hbc in H. done.
      * by exists c.
  - intros d x Hd Hx. apply Hkeep2; [done|]. by apply Hkeep.
  - intros d x Hn Hx. destruct (cache1' !! d) as [y|] eqn:Hd.
    + assert (cache2 !! d = Some y) as Hy.
      { apply Hkeep2; [by eapply Hfresh|done]. }
      assert (y = x) as -> by congruence. by apply (Hnew d).
    + by apply Hnew2.
Qed.

(** [_hasFocusableChild] on a tree whose set fields are right: it returns
    whether the node has a focusable descendant, leaves that in the
    node's field, and sets fields to right values only. *)
Lemma hasFocusableChild_correct k :
  ∀ fuel cache r,
    (k ≤ fuel)%nat ->
    tree_ok k heap r = true ->
    (∀ d, rtc (child_of heap) r d -> cache_sound_at heap cache d) ->
    ∃ b cache',
      _hasFocusableChild fuel heap cache r = Some (Normal (b, cache')) ∧
      (b = true ↔ has_focusable_descendant heap r) ∧
      cache' !! r = Some b ∧
      cache_extends heap cache cache'.
Proof.
  induction k as [|k IH]; intros fuel cache r Hfuel Hok Hsound; [done|].
  destruct fuel as [|fuel]; [lia|].
  destruct (tree_ok_lookup _ _ Hok) as (k' & node & [= <-] & Hnode & Hall).
  cbn [_hasFocusableChild]. rewrite Hnode.
  destruct (cache !! r) as [b|] eqn:Hcache.
  { exists b, cache. unfold read_cached. rewrite Hcache.
    split; [done|]. split; [|split; [done|apply cache_extends_refl]].
    apply (Hsound r); [done|done]. }
  destruct (hasFocusableChild_loop_correct (_hasFocusableChild fuel heap) k r)
    with (cs := _children node) (cache1 := <[r := false]> cache)
    as (cache2 & b & -> & Hb & Hiff & Hkeep & Hnew).
  { intros cache0 c Hc Hs.
    destruct (IH fuel cache0 c) as (b & cache' & ? & ? & ? & ?); [lia|done|done|].
    by exists b, cache'. }
  { done. }
  { by rewrite lookup_insert_eq. }
  { intros c d Hc Hd. assert (child_of heap r c) as Hchild by (by exists node).
    assert (d ≠ r) as Hne.
    { intros ->. by apply (tree_ok_acyclic (S k) r c). }
    intros x. rewrite lookup_insert_ne by done.
    apply (Hsound d). by eapply rtc_l. }
  assert (b = true ↔ has_focusable_descendant heap r) as Hspec.
  { rewrite Hiff, has_focusable_descendant_unfold.
    split; intros (c & Hc & H); exists c; (split; [|done]).
    - by exists node.
    - by apply (child_of_lookup r node). }
  exists b, cache2. unfold read_cached. rewrite Hb.
  split; [done|]. split; [done|]. split; [done|]. split.
  - intros d x Hx. assert (d ≠ r) as Hne by (intros ->; congruence).
    apply Hkeep; [done|]. by rewrite lookup_insert_ne.
  - intros d x Hn Hx. destruct (decide (d = r)) as [->|Hne].
    + assert (x = b) as -> by congruence. done.
    + apply (Hnew d); [|done]. by rewrite lookup_insert_ne.
Qed.

End Tree.

Lemma cache_sound_empty (heap : Heap) : cache_sound heap ∅.
Proof. intros d b Hb. by rewrite lookup_empty in Hb. Qed.

(** [_hasFocusableChild] when every set field of the tree is right. *)
Lemma hasFocusableChild_sound (heap : Heap) (cache : Cache) (r : ref) (k fuel : nat) :
  tree_ok k heap r = true -> (k ≤ fuel)%nat -> cache_sound heap cache ->
  ∃ b cache',
    _hasFocusableChild fuel heap cache r = Some (Normal (b, cache')) ∧
    (b = true ↔ has_focusable_descendant heap r) ∧
    cache' !! r = Some b ∧
    cache_sound heap cache'.
Proof.
  intros Hok Hfuel Hsound.
  destruct (hasFocusableChild_correct heap k fuel cache r Hfuel Hok)
    as (b & cache' & Hrun & Hb & Hr & Hext); [by intros d _|].
  exists b, cache'. split; [done|]. split; [done|]. split; [done|].
  intros d. by apply (cache_extends_sound_at heap cache).
Qed.

(** C5. On a tree, [_hasFocusableChild] returns true exactly when some
    transitive descendant of the node is focusable, and a second call on
    the same node returns the same value (from the field, which the first
    call has set). *)
Theorem hasFocusableChild_spec (heap : Heap) (cache : Cache) (r : ref) (k fuel : nat) :
  tree_ok k heap r = true -> (k ≤ fuel)%nat -> cache_sound heap cache ->
  ∃ b cache',
    _hasFocusableChild fuel heap cache r = Some (Normal (b, cache')) ∧
    (b = true ↔ has_focusable_descendant heap r) ∧
    _hasFocusableChild fuel heap cache' r = Some (Normal (b, cache')) ∧
    cache_sound heap cache'.
Proof.
  intros Hok Hfuel Hsound.
  destruct (hasFocusableChild_sound heap cache r k fuel Hok Hfuel Hsound)
    as (b & cache' & Hrun & Hb & Hr & Hsound').
  exists b, cache'. split; [done|]. split; [done|]. split; [|done].
  destruct (tree_ok_lookup heap k r Hok) as (k' & node & -> & Hnode & _).
  destruct fuel as [|fuel]; [lia|].
  cbn [_hasFocusableChild]. rewrite Hnode, Hr. unfold read_cached. by rewrite Hr.
Qed.

Lemma hasFocusableChild_spec_witness :
  tree_ok 3 scenario_heap "R" = true ∧ (3 ≤ 3)%nat ∧ cache_sound scenario_heap ∅ ∧
  ∃ b cache',
    _hasFocusableChild 3 scenario_heap ∅ "R" = Some (Normal (b, cache')) ∧
    (b = true ↔ has_focusable_descendant scenario_heap "R") ∧
    _hasFocusableChild 3 scenario_heap cache' "R" = Some (Normal (b, cache')) ∧
    cache_sound scenario_heap cache'.
Proof.
  assert (tree_ok 3 scenario_heap "R" = true) as Hok by reflexivity.
  assert (3 ≤ 3)%nat as Hle by lia.
  split; [exact Hok|]. split; [exact Hle|]. split; [apply cache_sound_empty|].
  exact (hasFocusableChild_spec scenario_heap ∅ "R" 3 3 Hok Hle
           (cache_sound_empty scenario_heap)).
Defined.

(** The scenario: [R] has the focusable child [A] and the loop stops there;
    the call on [A] also sets the field of [C]. *)
Example hasFocusableChild_scenario :
  _hasFocusableChild 3 scenario_heap ∅ "R" = Some (Normal (true, {["R" := true]})) ∧
  _hasFocusableChild 3 scenario_heap ∅ "A"
  = Some (Normal (false, <["A" := false]> {["C" := false]})).
Proof. split; vm_compute; reflexivity. Qed.

(** ** Leaves and interesting nodes *)

(** [isLeafNode] on a tree whose set fields are right. *)
Lemma isLeafNode_correct (heap : Heap) (cache : Cache) (r : ref) (node : CRAXNode)
    (k fuel : nat) :
  map_get heap r = Some node ->
  tree_ok k heap r = true -> (k ≤ fuel)%nat -> cache_sound heap cache ->
  ∃ b cache',
    isLeafNode fuel heap cache r = Some (Normal (b, cache')) ∧
    (b = true ↔ leaf_rule presentational_children_roles heap r node) ∧
    cache_sound heap cache'.
Proof.
  intros Hnode Hok Hfuel Hsound. unfold isLeafNode, leaf_rule. rewrite Hnode.
  destruct (_children node) as [|c cs] eqn:Hchildren.
  { exists true, cache. cbn. split; [done|]. split; [|done]. split; [by left|done]. }
  cbn [length Nat.eqb].
  destruct (_isPlainTextField node) eqn:Hplain.
  { exists true, cache. cbn. split; [done|]. split; [|done].
    split; [by right; left|done]. }
  destruct (_isTextOnlyObject node) eqn:Htext.
  { exists true, cache. cbn. split; [done|]. split; [|done].
    split; [by right; right; left|done]. }
  cbn [orb].
  destruct (role_in (_role node) presentational_children_roles) eqn:Hrole.
  { exists true, cache. split; [done|]. split; [|done].
    split; [|done]. intros _. right; right; right; left. by apply role_in_elem_of. }
  assert (_role node ∉ presentational_children_roles) as Hnotin.
  { intros Hin. apply role_in_elem_of in Hin. congruence. }
  destruct (hasFocusableChild_sound heap cache r k fuel Hok Hfuel Hsound)
    as (bf & cache' & -> & Hbf & _ & Hsound').
  destruct bf.
  { exists false, cache'. split; [done|]. split; [|done]. split; [done|].
    intros [?|[?|[?|[?|[Hn _]]]]]; try done. exfalso. apply Hn. by apply Hbf. }
  assert (¬ has_focusable_descendant heap r) as Hnone.
  { intros H. by apply Hbf in H. }
  destruct (String.eqb_spec (_name node) "") as [Hname|Hname]; cbn [negb].
  { rewrite !andb_false_r. exists false, cache'. split; [done|]. split; [|done].
    split; [done|]. intros [?|[?|[?|[?|[_ [[_ ?]|[_ ?]]]]]]]; done. }
  rewrite !andb_true_r.
  destruct (_focusable node) eqn:Hfoc.
  { exists true, cache'. split; [done|]. split; [|done]. split; [|done].
    intros _. right; right; right; right. split; [done|]. by left. }
  destruct (String.eqb_spec (_role node) "heading") as [Hh|Hh].
  { exists true, cache'. split; [done|]. split; [|done]. split; [|done].
    intros _. right; right; right; right. split; [done|]. by right. }
  exists false, cache'. split; [done|]. split; [|done]. split; [done|].
  intros [?|[?|[?|[?|[_ [[? _]|[? _]]]]]]]; done.
Qed.

(** C4 (as amended). [isLeafNode] is true for a node without children,
    unconditionally. On a tree it is true exactly in these cases, tried in
    this order: no children; [_isPlainTextField] or [_isTextOnlyObject]
    holds; the role is one of ["doc-cover"], ["graphics-symbol"], ["img"],
    ["Meter"], ["scrollbar"], ["slider"], ["separator"], ["progressbar"];
    and, provided no descendant is focusable, the node is focusable with a
    non-empty name, or its role is ["heading"] with a non-empty name. *)
Theorem isLeafNode_rule (heap : Heap) (cache : Cache) (r : ref) (node : CRAXNode)
    (fuel : nat) :
  map_get heap r = Some node ->
  (_children node = [] -> isLeafNode fuel heap cache r = Some (Normal (true, cache))) ∧
  (∀ k, tree_ok k heap r = true -> (k ≤ fuel)%nat -> cache_sound heap cache ->
     ∃ b cache',
       isLeafNode fuel heap cache r = Some (Normal (b, cache')) ∧
       (b = true ↔ leaf_rule presentational_children_roles heap r node)).
Proof.
  intros Hnode. split.
  - intros Hnil. unfold isLeafNode. by rewrite Hnode, Hnil.
  - intros k Hok Hfuel Hsound.
    destruct (isLeafNode_correct heap cache r node k fuel Hnode Hok Hfuel Hsound)
      as (b & cache' & Hrun & Hb & _).
    by exists b, cache'.
Qed.

Lemma isLeafNode_rule_witness :
  map_get scenario_heap "A" = Some scenario_button ∧
  (_children scenario_button = [] ->
   isLeafNode 2 scenario_heap ∅ "A" = Some (Normal (true, ∅))) ∧
  ∃ b cache',
    isLeafNode 2 scenario_heap ∅ "A" = Some (Normal (b, cache')) ∧
    (b = true ↔
     leaf_rule presentational_children_roles scenario_heap "A" scenario_button).
Proof.
  assert (map_get scenario_heap "A" = Some scenario_button) as Hnode by reflexivity.
  split; [exact Hnode|].
  destruct (isLeafNode_rule scenario_heap ∅ "A" scenario_button 2 Hnode) as [Hnil Htree].
  split; [exact Hnil|].
  apply (Htree 2); [reflexivity|lia|apply cache_sound_empty].
Defined.

(** The scenario: [A] has a child, yet it is a leaf (focusable, named, no
    focusable descendant); [C] has no children. *)
Example isLeafNode_scenario :
  isLeafNode 2 scenario_heap ∅ "A"
  = Some (Normal (true, <["A" := false]> {["C" := false]})) ∧
  isLeafNode 0 scenario_heap ∅ "C" = Some (Normal (true, ∅)).
Proof. split; vm_compute; reflexivity. Qed.

(** C4 (as stated) fails for a node of role ["meter"] that has a child and
    is neither focusable nor named: the specification makes it a leaf, the
    code (whose list has ["Meter"]) does not. *)
Lemma isLeafNode_as_stated_fails :
  map_get meter_heap "m" = Some meter_node ∧
  ¬ isLeafNode_as_stated 2 meter_heap ∅ "m" meter_node.
Proof.
  split; [reflexivity|]. intros (b & cache' & Hrun & Hiff).
  assert (b = false) as ->.
  { vm_compute in Hrun. congruence. }
  assert (false = true) as Hf; [|discriminate].
  apply Hiff. right; right; right; left.
  change (_role meter_node) with "meter". do 3 right. left.
Qed.

(** C6 (as amended). On a tree, [isInteresting(insideControl)] is false
    when the role is ["Ignored"] or the node is hidden; otherwise true when
    the node is focusable or richly editable; otherwise true when
    [isControl] holds; otherwise false when [insideControl] is true;
    otherwise true exactly when [isLeafNode] holds and the name is not
    empty. *)
Theorem isInteresting_rule (heap : Heap) (cache : Cache) (r : ref) (node : CRAXNode)
    (insideControl : bool) (k fuel : nat) :
  map_get heap r = Some node ->
  tree_ok k heap r = true -> (k ≤ fuel)%nat -> cache_sound heap cache ->
  ∃ b cache',
    isInteresting fuel heap cache r insideControl = Some (Normal (b, cache')) ∧
    (b = true ↔ interesting_rule "Ignored" heap r node insideControl).
Proof.
  intros Hnode Hok Hfuel Hsound. unfold isInteresting, interesting_rule.
  rewrite Hnode.
  destruct (String.eqb_spec (_role node) "Ignored") as [Hrole|Hrole].
  { exists false, cache. split; [done|]. split; [done|]. intros [Hn _].
    exfalso. apply Hn. by left. }
  destruct (_hidden node) eqn:Hhidden.
  { exists false, cache. split; [done|]. split; [done|]. intros [Hn _].
    exfalso. apply Hn. by right. }
  assert (¬ (_role node = "Ignored" ∨ false = true)) as Hshown.
  { intros [?|?]; done. }
  cbn [orb].
  destruct (_focusable node) eqn:Hfoc.
  { exists true, cache. split; [done|]. split; [|done]. intros _.
    split; [done|]. by left. }
  destruct (_richlyEditable node) eqn:Hrich.
  { exists true, cache. split; [done|]. split; [|done]. intros _.
    split; [done|]. by right; left. }
  cbn [orb].
  destruct (isControl node) eqn:Hcontrol.
  { exists true, cache. split; [done|]. split; [|done]. intros _.
    split; [done|]. by right; right; left. }
  destruct insideControl.
  { exists false, cache. split; [done|]. split; [done|].
    intros [_ [?|[?|[?|[? _]]]]]; done. }
  destruct (isLeafNode_correct heap cache r node k fuel Hnode Hok Hfuel Hsound)
    as (leaf & cache' & -> & Hleaf & _).
  exists (leaf && negb (String.eqb (_name node) "")), cache'. split; [done|].
  rewrite andb_true_iff, Hleaf, negb_true_iff, String.eqb_neq.
  split.
  - intros [Hl Hn]. split; [done|]. by right; right; right.
  - intros [_ [?|[?|[?|[_ [Hl Hn]]]]]]; done.
Qed.

Lemma isInteresting_rule_witness :
  map_get scenario_heap "C" = Some scenario_text ∧
  tree_ok 1 scenario_heap "C" = true ∧ (1 ≤ 1)%nat ∧ cache_sound scenario_heap ∅ ∧
  ∃ b cache',
    isInteresting 1 scenario_heap ∅ "C" false = Some (Normal (b, cache')) ∧
    (b = true ↔ interesting_rule "Ignored" scenario_heap "C" scenario_text false).
Proof.
  assert (map_get scenario_heap "C" = Some scenario_text) as Hnode by reflexivity.
  assert (tree_ok 1 scenario_heap "C" = true) as Hok by reflexivity.
  assert (1 ≤ 1)%nat as Hle by lia.
  split; [exact Hnode|]. split; [exact Hok|]. split; [exact Hle|].
  split; [apply cache_sound_empty|].
  exact (isInteresting_rule scenario_heap ∅ "C" scenario_text false 1 1 Hnode Hok Hle
           (cache_sound_empty scenario_heap)).
Defined.

(** The scenario: [A] is a control; [C] is a named leaf, interesting on its
    own and not inside a control. *)
Example isInteresting_scenario :
  isInteresting 2 scenario_heap ∅ "A" false = Some (Normal (true, ∅)) ∧
  isInteresting 1 scenario_heap ∅ "C" false = Some (Normal (true, ∅)) ∧
  isInteresting 1 scenario_heap ∅ "C" true = Some (Normal (false, ∅)).
Proof. repeat split; vm_compute; reflexivity. Qed.

(** C6 (as stated) fails for a focusable node of role ["ignored"]: the
    specification makes it uninteresting, the code (which compares with
    ["Ignored"]) finds it interesting. *)
Lemma isInteresting_as_stated_fails :
  map_get ignored_heap "i" = Some ignored_node ∧
  ¬ isInteresting_as_stated 1 ignored_heap ∅ "i" ignored_node false.
Proof.
  split; [reflexivity|]. intros (b & cache' & Hrun & Hiff).
  assert (b = true) as ->.
  { vm_compute in Hrun. congruence. }
  destruct (proj1 Hiff eq_refl) as [Hn _]. apply Hn. by left.
Qed.

(** ** Search *)

Lemma find_app {A} (f : A -> bool) (l1 l2 : list A) :
  List.find f (l1 ++ l2) =
  match List.find f l1 with
  | Some x => Some x
  | None => List.find f l2
  end.
Proof. induction l1 as [|a l1 IH]; simpl; [done|]. by destruct (f a). Qed.

(** What [List.find] returns is the first element that passes the test. *)
Lemma find_first {A} (f : A -> bool) (l : list A) :
  match List.find f l with
  | Some x => ∃ l1 l2, l = (l1 ++ x :: l2)%list ∧ f x = true ∧ ∀ y, y ∈ l1 -> f y = false
  | None => ∀ y, y ∈ l -> f y = false
  end.
Proof.
  induction l as [|a l IH]; simpl.
  - intros y Hy. by apply elem_of_nil in Hy.
  - destruct (f a) eqn:Ha.
    + exists [], l. split; [done|]. split; [done|]. intros y Hy.
      by apply elem_of_nil in Hy.
    + destruct (List.find f l) as [x|].
      * destruct IH as (l1 & l2 & -> & Hx & Hl1). exists (a :: l1), l2.
        split; [done|]. split; [done|]. intros y Hy.
        apply elem_of_cons in Hy as [->|Hy]; [done|by apply Hl1].
      * intros y Hy. apply elem_of_cons in Hy as [->|Hy]; [done|by apply IH].
Qed.

Section Search.
Variable heap : Heap.
Variable predicate : CRAXNode -> bool.

(** The loop of [find] returns the first match in the subtrees of the
    entries, taken from left to right. *)
Lemma find_loop_correct (rec : ref -> option (completion (option ref))) k :
  (∀ c, tree_ok k heap c = true ->
        rec c = Some (Normal (List.find (satisfies heap predicate) (preorder k heap c)))) ->
  ∀ cs,
    (∀ c, c ∈ cs -> ∃ c', c = Some c' ∧ tree_ok k heap c' = true) ->
    find_loop rec cs =
    Some (Normal (List.find (satisfies heap predicate)
                    (flat_map (fun c => match c with
                                        | Some c => preorder k heap c
                                        | None => []
                                        end) cs))).
Proof.
  intros Hrec cs. induction cs as [|c cs IH]; intros Hcs; [done|].
  destruct (Hcs c) as (c' & -> & Hok); [by left|].
  cbn [find_loop flat_map]. rewrite (Hrec c' Hok), find_app.
  destruct (List.find _ (preorder k heap c')); [done|].
  apply IH. intros c Hc. apply Hcs. by right.
Qed.

Lemma find_correct k :
  ∀ fuel r,
    (k ≤ fuel)%nat -> tree_ok k heap r = true ->
    find fuel heap predicate r =
    Some (Normal (List.find (satisfies heap predicate) (preorder k heap r))).
Proof.
  induction k as [|k IH]; intros fuel r Hfuel Hok; [done|].
  destruct fuel as [|fuel]; [lia|].
  destruct (tree_ok_lookup heap _ _ Hok) as (k' & node & [= <-] & Hnode & Hall).
  cbn [find preorder]. rewrite Hnode. cbn [List.find].
  unfold satisfies at 1. rewrite Hnode.
  destruct (predicate node); [done|].
  apply find_loop_correct; [|done].
  intros c Hc. apply IH; [lia|done].
Qed.

(** [preorder] lists the node and its descendants, and nothing else. *)
Lemma preorder_reachable k r d :
  tree_ok k heap r = true ->
  (d ∈ preorder k heap r ↔ rtc (child_of heap) r d).
Proof.
  intros Hok. split.
  - revert r Hok. induction k as [|k IH]; intros r Hok; [done|].
    destruct (tree_ok_lookup heap _ _ Hok) as (k' & node & [= <-] & Hnode & Hall).
    cbn [preorder]. rewrite Hnode. intros Hd.
    apply elem_of_cons in Hd as [->|Hd]; [done|].
    apply list_elem_of_In, in_flat_map in Hd as (c & Hc & Hd).
    apply list_elem_of_In in Hc. destruct (Hall c Hc) as (c' & -> & Hok').
    apply rtc_l with c'; [by exists node|].
    apply IH; [done|]. by apply list_elem_of_In.
  - intros Hrtc. revert k Hok.
    induction Hrtc as [x|x y z Hxy _ IH]; intros k Hok;
      destruct (tree_ok_lookup heap _ _ Hok) as (k' & node & -> & Hnode & Hall);
      cbn [preorder]; rewrite Hnode; [by left|].
    right. apply list_elem_of_In, in_flat_map. exists (Some y).
    assert (Some y ∈ _children node) as Hy by (by apply (child_of_lookup heap x node)).
    split; [by apply list_elem_of_In|].
    apply list_elem_of_In, IH. destruct (Hall _ Hy) as (c' & [= <-] & Hok'). done.
Qed.

End Search.

(** C9. On a tree, [find] returns the first node of the depth-first order
    (a node before its children, the children from left to right) that
    satisfies the predicate, and [null] when no node of the tree satisfies
    it; the result is a function of the tree and the predicate. *)
Theorem find_depth_first (heap : Heap) (predicate : CRAXNode -> bool) (r : ref)
    (k fuel : nat) :
  tree_ok k heap r = true -> (k ≤ fuel)%nat ->
  ∃ result,
    find fuel heap predicate r = Some (Normal result) ∧
    result = List.find (satisfies heap predicate) (preorder k heap r) ∧
    (∀ d, d ∈ preorder k heap r ↔ rtc (child_of heap) r d) ∧
    match result with
    | Some d =>
        satisfies heap predicate d = true ∧
        ∃ before after,
          preorder k heap r = (before ++ d :: after)%list ∧
          ∀ x, x ∈ before -> satisfies heap predicate x = false
    | None => ∀ d, rtc (child_of heap) r d -> satisfies heap predicate d = false
    end.
Proof.
  intros Hok Hfuel. eexists. split; [by apply find_correct|].
  split; [done|]. split; [intros d; by apply preorder_reachable|].
  pose proof (find_first (satisfies heap predicate) (preorder k heap r)) as Hfirst.
  destruct (List.find _ (preorder k heap r)) as [d|].
  - destruct Hfirst as (l1 & l2 & Heq & Hd & Hl1). split; [done|]. by exists l1, l2.
  - intros d Hd. apply Hfirst. by apply preorder_reachable.
Qed.

Lemma find_depth_first_witness :
  tree_ok 3 scenario_heap "R" = true ∧ (3 ≤ 3)%nat ∧
  ∃ result,
    find 3 scenario_heap (fun n => String.eqb (_role n) "text") "R"
    = Some (Normal result) ∧
    result = List.find (satisfies scenario_heap (fun n => String.eqb (_role n) "text"))
               (preorder 3 scenario_heap "R") ∧
    (∀ d, d ∈ preorder 3 scenario_heap "R" ↔ rtc (child_of scenario_heap) "R" d) ∧
    match result with
    | Some d =>
        satisfies scenario_heap (fun n => String.eqb (_role n) "text") d = true ∧
        ∃ before after,
          preorder 3 scenario_heap "R" = (before ++ d :: after)%list ∧
          ∀ x, x ∈ before ->
               satisfies scenario_heap (fun n => String.eqb (_role n) "text") x = false
    | None =>
        ∀ d, rtc (child_of scenario_heap) "R" d ->
             satisfies scenario_heap (fun n => String.eqb (_role n) "text") d = false
    end.
Proof.
  assert (tree_ok 3 scenario_heap "R" = true) as Hok by reflexivity.
  assert (3 ≤ 3)%nat as Hle by lia.
  split; [exact Hok|]. split; [exact Hle|].
  exact (find_depth_first scenario_heap (fun n => String.eqb (_role n) "text") "R" 3 3
           Hok Hle).
Defined.

(** The scenario: the order is [R, A, C, B]; a predicate that only [C]
    satisfies finds [C], one that nothing satisfies finds nothing. *)
Example find_scenario :
  preorder 3 scenario_heap "R" = ["R"; "A"; "C"; "B"] ∧
  find 3 scenario_heap (fun n => String.eqb (_role n) "text") "R"
  = Some (Normal (Some "C")) ∧
  find 3 scenario_heap (fun n => String.eqb (_role n) "none") "R"
  = Some (Normal None).
Proof. repeat split; vm_compute; reflexivity. Qed.

(** Outside trees: the [undefined] child that [createTree] stores for a
    dangling id makes a walk that reaches it throw. *)
Example dangling_child_throws :
  find 2 dangling_heap (fun _ => false) "r" = Some (Throw TypeError) ∧
  _hasFocusableChild 2 dangling_heap ∅ "r" = Some (Throw TypeError) ∧
  tree_ok 2 dangling_heap "r" = false.
Proof. repeat split; reflexivity. Qed.

(** * Further properties of the code *)

(** ** The constructor's flags *)

Lemma find_rev_cons {A} (f : A -> bool) (a : A) (l : list A) :
  List.find f (rev (a :: l)) =
  match List.find f (rev l) with
  | Some x => Some x
  | None => if f a then Some a else None
  end.
Proof. simpl. apply find_app_last. Qed.

(** One flag through the constructor's loop: the last property of the
    flag's name decides, and without one the flag keeps its value. *)
Lemma constructor_loop_flags (l : list Protocol.AXProperty) (n : CRAXNode) :
  let last name := List.find (fun q => String.eqb (Protocol.property_name q) name)
                             (rev l) in
  let n' := fold_left constructor_property l n in
  _focusable n' = from_option (fun q => truthy (Protocol.property_value q))
                    (_focusable n) (last "focusable") ∧
  _expanded n' = from_option (fun q => truthy (Protocol.property_value q))
                   (_expanded n) (last "expanded") ∧
  _hidden n' = from_option (fun q => truthy (Protocol.property_value q))
                 (_hidden n) (last "hidden") ∧
  _editable n' = from_option (fun _ => true) (_editable n) (last "editable") ∧
  _richlyEditable n' =
    from_option (fun q => strict_eq_str (Protocol.property_value q) "richtext")
      (_richlyEditable n) (last "editable").
Proof.
  revert n. induction l as [|q l IH]; intros n; [done|].
  cbv zeta in *. cbn [fold_left]. rewrite !find_rev_cons.
  destruct (IH (constructor_property n q)) as (-> & -> & -> & -> & ->).
  unfold constructor_property.
  repeat split;
    (destruct (List.find _ (rev l)); [done|]); cbn [from_option];
    repeat match goal with
           | |- context [String.eqb (Protocol.property_name q) ?s] =>
               destruct (String.eqb (Protocol.property_name q) s)
           end; done.
Qed.

(** X1. The flags of a new node are read off the payload's property list by
    exact name, the last entry of a name deciding: [focusable], [expanded]
    and [hidden] are the truthiness of that entry's value and false without
    one; the node is editable exactly when there is an [editable] entry, and
    richly editable exactly when the last one has the value ["richtext"]. *)
Theorem constructor_flags (payload : Protocol.AXNode) :
  _focusable (new_CRAXNode payload)
  = from_option truthy false (last_property payload "focusable") ∧
  _expanded (new_CRAXNode payload)
  = from_option truthy false (last_property payload "expanded") ∧
  _hidden (new_CRAXNode payload)
  = from_option truthy false (last_property payload "hidden") ∧
  _editable (new_CRAXNode payload)
  = bool_decide (is_Some (last_property payload "editable")) ∧
  _richlyEditable (new_CRAXNode payload)
  = from_option (fun v => strict_eq_str v "richtext") false
      (last_property payload "editable").
Proof.
  unfold new_CRAXNode, last_property.
  destruct (constructor_loop_flags (default [] (Protocol.properties payload))
              (mkCRAXNode payload [] false false false false false
                 (match Protocol.name payload with Some v => v | None => "" end)
                 (match Protocol.role payload with Some v => v | None => "Unknown" end)))
    as (-> & -> & -> & -> & ->).
  cbn [_focusable _expanded _hidden _editable _richlyEditable].
  repeat split; by destruct (List.find _ _).
Qed.

(** X2. Whether a node is a plain text field, read off its payload: with an
    [editable] property it is one unless the last such property says
    ["richtext"], whatever the role; without one it is one exactly for the
    roles ["textbox"], ["ComboBox"], ["searchbox"]. The children play no
    part. *)
Theorem isPlainTextField_of_payload (payload : Protocol.AXNode)
    (cs : list (option ref)) :
  _isPlainTextField (push_children (new_CRAXNode payload) cs) =
  match last_property payload "editable" with
  | Some v => negb (strict_eq_str v "richtext")
  | None =>
      role_in (default "Unknown" (Protocol.role payload))
        ["textbox"; "ComboBox"; "searchbox"]
  end.
Proof.
  unfold _isPlainTextField, push_children.
  cbn [_richlyEditable _editable _role]. rewrite new_CRAXNode_role.
  unfold new_CRAXNode, last_property.
  destruct (constructor_loop_flags (default [] (Protocol.properties payload))
              (mkCRAXNode payload [] false false false false false
                 (match Protocol.name payload with Some v => v | None => "" end)
                 (match Protocol.role payload with Some v => v | None => "Unknown" end)))
    as (_ & _ & _ & -> & ->).
  cbn [_editable _richlyEditable].
  destruct (List.find _ _) as [q|]; cbn [from_option fmap option_fmap option_map].
  - by destruct (strict_eq_str (Protocol.property_value q) "richtext").
  - unfold role_in. cbn [existsb]. by rewrite orb_false_r, orb_assoc.
Qed.

(** ** What [createTree] builds *)

Lemma map_set_keys {V} (m : list (string * V)) k v x :
  x ∈ map fst (map_set m k v) -> x = k ∨ x ∈ map fst m.
Proof.
  induction m as [|[k0 v0] m IH]; simpl.
  - intros Hx. apply list_elem_of_singleton in Hx. by left.
  - destruct (String.eqb_spec k0 k) as [->|Hne]; simpl; intros Hx;
      apply elem_of_cons in Hx as [->|Hx].
    + by left.
    + right. by right.
    + right. by left.
    + destruct (IH Hx) as [->|Hin]; [by left|right; by right].
Qed.

Lemma map_set_NoDup {V} (m : list (string * V)) k v :
  NoDup (map fst m) -> NoDup (map fst (map_set m k v)).
Proof.
  induction m as [|[k0 v0] m IH]; simpl; intros Hnd.
  - apply NoDup_singleton.
  - apply NoDup_cons in Hnd as [Hk0 Hnd].
    destruct (String.eqb_spec k0 k) as [->|Hne]; simpl.
    + by apply NoDup_cons.
    + apply NoDup_cons. split; [|by apply IH].
      intros Hin. apply map_set_keys in Hin as [->|Hin]; done.
Qed.

Lemma first_loop_NoDup (payloads : list Protocol.AXNode) (m : Heap) :
  NoDup (map fst m) ->
  NoDup (map fst (fold_left (fun m payload =>
                               map_set m (Protocol.nodeId payload)
                                 (new_CRAXNode payload))
                            payloads m)).
Proof.
  revert m. induction payloads as [|p l IH]; intros m Hnd; simpl; [done|].
  apply IH. by apply map_set_NoDup.
Qed.

(** X8. In what [createTree] builds, no key occurs twice; the node under a
    key has a payload of that id and is the constructor's node for that
    payload, with children attached and nothing else changed; and when
    several records share an id, the payload is the last of them. *)
Theorem createTree_nodes_invariant (payloads : list Protocol.AXNode) :
  NoDup (map fst (createTree_nodes payloads)) ∧
  ∀ r node,
    map_get (createTree_nodes payloads) r = Some node ->
    Protocol.nodeId (_payload node) = r ∧
    List.find (fun p => String.eqb (Protocol.nodeId p) r) (rev payloads)
    = Some (_payload node) ∧
    node = push_children (new_CRAXNode (_payload node)) (_children node).
Proof.
  split.
  - unfold createTree_nodes. cbv zeta. rewrite map_map. cbn [fst].
    rewrite <- (map_map fst (fun k : string => k)), map_id.
    apply first_loop_NoDup. apply NoDup_nil_2.
  - intros r node. rewrite createTree_nodes_lookup.
    destruct (List.find _ (rev payloads)) as [p|] eqn:Hfind; [|done].
    intros [= <-]. unfold push_children at 1 2. cbn [_payload].
    rewrite new_CRAXNode_payload.
    apply find_some in Hfind as [_ Hid]. apply String.eqb_eq in Hid.
    split; [done|]. split; [reflexivity|].
    unfold push_children. cbn [_children _payload].
    rewrite !new_CRAXNode_payload, !new_CRAXNode_children. reflexivity.
Qed.

Lemma forward_closed_cons (p : Protocol.AXNode) (rest : list Protocol.AXNode) :
  forward_closed (p :: rest) = true ->
  (Protocol.nodeId p ∉ Protocol.nodeId <$> rest) ∧
  (∀ c, c ∈ default [] (Protocol.childIds p) -> c ∈ Protocol.nodeId <$> rest) ∧
  forward_closed rest = true.
Proof.
  cbn [forward_closed]. rewrite !andb_true_iff, negb_true_iff.
  change (map Protocol.nodeId rest) with (Protocol.nodeId <$> rest).
  intros [[Hid Hchildren] Hrest]. split; [|split; [|done]].
  - intros Hin. apply role_in_elem_of in Hin. unfold role_in in Hin. congruence.
  - intros c Hc. rewrite forallb_forall in Hchildren.
    apply existsb_eqb_elem_of, Hchildren. by apply list_elem_of_In.
Qed.

Lemma forward_closed_suffix (pre l : list Protocol.AXNode) :
  forward_closed (pre ++ l) = true -> forward_closed l = true.
Proof.
  induction pre as [|p pre IH]; [done|]. intros H.
  apply IH. by apply (forward_closed_cons p (pre ++ l)).
Qed.

Lemma find_none_all {A} (f : A -> bool) (l : list A) :
  (∀ x, x ∈ l -> f x = false) -> List.find f l = None.
Proof.
  induction l as [|a l IH]; intros H; simpl; [done|].
  rewrite (H a) by left. apply IH. intros x Hx. apply H. by right.
Qed.

(** In a snapshot listed parents first, the record of an id is the only one
    of that id. *)
Lemma forward_closed_last_record (pre rest : list Protocol.AXNode)
    (p : Protocol.AXNode) :
  forward_closed (pre ++ p :: rest) = true ->
  List.find (fun q => String.eqb (Protocol.nodeId q) (Protocol.nodeId p))
            (rev (pre ++ p :: rest)) = Some p.
Proof.
  intros Hfc. apply forward_closed_suffix in Hfc.
  apply forward_closed_cons in Hfc as (Hid & _ & _).
  rewrite rev_app_distr. cbn [rev]. rewrite find_app, find_app_last.
  rewrite find_none_all, String.eqb_refl; [done|].
  intros x Hx. apply String.eqb_neq. intros Heq. apply Hid.
  apply list_elem_of_fmap. exists x. split; [done|].
  apply list_elem_of_In, in_rev. by apply list_elem_of_In.
Qed.

Lemma forward_closed_tree_ok (payloads : list Protocol.AXNode) :
  forward_closed payloads = true ->
  ∀ n pre p rest,
    payloads = (pre ++ p :: rest)%list -> (length rest < n)%nat ->
    tree_ok n (createTree_nodes payloads) (Protocol.nodeId p) = true.
Proof.
  intros Hfc n. induction n as [|n IH]; intros pre p rest Heq Hlen; [lia|].
  cbn [tree_ok]. rewrite createTree_nodes_lookup.
  rewrite Heq at 1. rewrite forward_closed_last_record by (by rewrite <- Heq).
  cbn [fmap option_fmap option_map]. unfold push_children. cbn [_children].
  rewrite new_CRAXNode_children. cbn [app].
  rewrite Heq in Hfc. apply forward_closed_suffix in Hfc as Hsuffix.
  apply forward_closed_cons in Hsuffix as (_ & Hchildren & _).
  apply forallb_forall. intros c Hc. apply in_map_iff in Hc as (childId & <- & Hin).
  apply list_elem_of_In in Hin. specialize (Hchildren _ Hin).
  rewrite bool_decide_eq_true_2.
  2:{ rewrite Heq, fmap_app, fmap_cons. apply elem_of_app. right. by right. }
  apply list_elem_of_fmap in Hchildren as (q & -> & Hq).
  apply list_elem_of_split in Hq as (pre' & rest' & ->).
  apply (IH (pre ++ p :: pre')%list q rest').
  - rewrite Heq. by rewrite <- app_assoc.
  - rewrite length_app in Hlen. simpl in Hlen. lia.
Qed.

(** X9. On a snapshot listed parents first (distinct ids, every child id
    naming a later record) [createTree] builds a tree: below every record's
    node all child references are defined and no path is longer than the
    snapshot, so [find] and [_hasFocusableChild] from that node return
    normally. *)
Theorem createTree_parents_first (payloads : list Protocol.AXNode)
    (p : Protocol.AXNode) :
  forward_closed payloads = true -> p ∈ payloads ->
  tree_ok (length payloads) (createTree_nodes payloads) (Protocol.nodeId p) = true ∧
  (∀ predicate, ∃ result,
     find (length payloads) (createTree_nodes payloads) predicate (Protocol.nodeId p)
     = Some (Normal result)) ∧
  (∃ b cache',
     _hasFocusableChild (length payloads) (createTree_nodes payloads) ∅
       (Protocol.nodeId p) = Some (Normal (b, cache'))).
Proof.
  intros Hfc Hp.
  assert (tree_ok (length payloads) (createTree_nodes payloads) (Protocol.nodeId p)
          = true) as Hok.
  { apply list_elem_of_split in Hp as (pre & rest & Heq).
    apply (forward_closed_tree_ok payloads Hfc _ pre p rest Heq).
    rewrite Heq, length_app. simpl. lia. }
  split; [done|]. split.
  - intros predicate. eexists. by apply find_correct.
  - destruct (hasFocusableChild_sound (createTree_nodes payloads) ∅ (Protocol.nodeId p)
                (length payloads) (length payloads) Hok)
      as (b & cache' & Hrun & _); [lia|apply cache_sound_empty|].
    by exists b, cache'.
Qed.

Lemma createTree_parents_first_witness :
  forward_closed scenario = true ∧ scenario_R ∈ scenario ∧
  tree_ok (length scenario) (createTree_nodes scenario) (Protocol.nodeId scenario_R)
  = true ∧
  (∀ predicate, ∃ result,
     find (length scenario) (createTree_nodes scenario) predicate
       (Protocol.nodeId scenario_R) = Some (Normal result)) ∧
  (∃ b cache',
     _hasFocusableChild (length scenario) (createTree_nodes scenario) ∅
       (Protocol.nodeId scenario_R) = Some (Normal (b, cache'))).
Proof.
  assert (forward_closed scenario = true) as Hfc by reflexivity.
  assert (scenario_R ∈ scenario) as Hp by left.
  split; [exact Hfc|]. split; [exact Hp|].
  exact (createTree_parents_first scenario scenario_R Hfc Hp).
Defined.

(** ** The memoized flag on any graph of objects *)

Section Frame.
Variable heap : Heap.

Lemma hasFocusableChild_loop_frame
    (rec : Cache -> ref -> option (completion (bool * Cache))) r :
  (∀ cache c b cache',
     rec cache c = Some (Normal (b, cache')) ->
     (∀ d x, cache !! d = Some x -> cache' !! d = Some x) ∧
     (∀ d, is_Some (cache' !! d) -> is_Some (cache !! d) ∨ rtc (child_of heap) c d)) ->
  ∀ cs cache1 cache2,
    hasFocusableChild_loop rec heap r cs cache1 = Some (Normal cache2) ->
    is_Some (cache1 !! r) ->
    is_Some (cache2 !! r) ∧
    (∀ d x, d ≠ r -> cache1 !! d = Some x -> cache2 !! d = Some x) ∧
    (∀ d, is_Some (cache2 !! d) ->
          is_Some (cache1 !! d) ∨ ∃ c, Some c ∈ cs ∧ rtc (child_of heap) c d).
Proof.
  intros Hrec cs. induction cs as [|c cs IH]; intros cache1 cache2 Hrun Hr.
  { cbn in Hrun. injection Hrun as <-. split; [done|]. split; [done|]. by left. }
  cbn [hasFocusableChild_loop] in Hrun. destruct c as [c|]; [|done].
  destruct (map_get heap c) as [cn|]; [|done].
  assert (∀ cache0 : Cache,
            is_Some (cache0 !! r) ->
            (∀ d x, d ≠ r -> cache1 !! d = Some x -> cache0 !! d = Some x) ->
            (∀ d, is_Some (cache0 !! d) -> is_Some (cache1 !! d) ∨ rtc (child_of heap) c d) ->
            is_Some (<[r := true]> cache0 !! r) ∧
            (∀ d x, d ≠ r -> cache1 !! d = Some x -> <[r := true]> cache0 !! d = Some x) ∧
            (∀ d, is_Some (<[r := true]> cache0 !! d) ->
                  is_Some (cache1 !! d) ∨ ∃ c0, Some c0 ∈ Some c :: cs ∧ rtc (child_of heap) c0 d))
    as Hbreak.
  { intros cache0 H0 Hkeep Hnew. split; [by rewrite lookup_insert_eq|]. split.
    - intros d x Hd Hx. rewrite lookup_insert_ne by done. by apply Hkeep.
    - intros d Hd. destruct (decide (d = r)) as [->|Hne]; [by left|].
      rewrite lookup_insert_ne in Hd by done.
      destruct (Hnew d Hd) as [?|?]; [by left|]. right. exists c. split; [by left|done]. }
  destruct (_focusable cn).
  { injection Hrun as <-. apply Hbreak; [done|done|]. intros d Hd. by left. }
  destruct (rec cache1 c) as [[[b cache1']|e]|] eqn:Hcall; [|done|done].
  destruct (Hrec _ _ _ _ Hcall) as [Hkeep Hnew].
  destruct b.
  { injection Hrun as <-. apply Hbreak.
    - destruct Hr as [x Hx]. exists x. by apply Hkeep.
    - intros d x _ Hx. by apply Hkeep.
    - done. }
  destruct (IH cache1' cache2 Hrun) as (Hr2 & Hkeep2 & Hnew2).
  { destruct Hr as [x Hx]. exists x. by apply Hkeep. }
  split; [done|]. split.
  - intros d x Hd Hx. apply Hkeep2; [done|]. by apply Hkeep.
  - intros d Hd. destruct (Hnew2 d Hd) as [H1|(c0 & Hc0 & Hreach)].
    + destruct (Hnew d H1) as [?|?]; [by left|]. right. exists c. split; [by left|done].
    + right. exists c0. split; [by right|done].
Qed.

Lemma hasFocusableChild_frame fuel :
  ∀ cache r b cache',
    _hasFocusableChild fuel heap cache r = Some (Normal (b, cache')) ->
    cache' !! r = Some b ∧
    (∀ d x, cache !! d = Some x -> cache' !! d = Some x) ∧
    (∀ d, is_Some (cache' !! d) -> is_Some (cache !! d) ∨ rtc (child_of heap) r d).
Proof.
  induction fuel as [|fuel IH]; intros cache r b cache' Hrun; [done|].
  cbn [_hasFocusableChild] in Hrun.
  destruct (map_get heap r) as [node|] eqn:Hnode; [|done].
  destruct (cache !! r) as [x|] eqn:Hcache.
  { unfold read_cached in Hrun. rewrite Hcache in Hrun. injection Hrun as <- <-.
    split; [done|]. split; [done|]. intros d Hd. by left. }
  destruct (hasFocusableChild_loop _ heap r (_children node) (<[r := false]> cache))
    as [[cache2|e]|] eqn:Hloop; [|done|done].
  injection Hrun as <- <-.
  destruct (hasFocusableChild_loop_frame (_hasFocusableChild fuel heap) r)
    with (cs := _children node) (cache1 := <[r := false]> cache) (cache2 := cache2)
    as ([x Hx] & Hkeep & Hnew).
  { intros cache0 c b cache0' Hcall.
    destruct (IH _ _ _ _ Hcall) as (_ & ? & ?). done. }
  { done. }
  { by rewrite lookup_insert_eq. }
  split; [by unfold read_cached; rewrite Hx|]. split.
  - intros d y Hy. assert (d ≠ r) as Hne by (intros ->; congruence).
    apply Hkeep; [done|]. by rewrite lookup_insert_ne.
  - intros d Hd. destruct (decide (d = r)) as [->|Hne]; [by right|].
    destruct (Hnew d Hd) as [H1|(c & Hc & Hreach)].
    + left. by rewrite lookup_insert_ne in H1.
    + right. apply rtc_l with c; [by exists node|done].
Qed.

Lemma unset_fields_mono (cache cache' : Cache) :
  (∀ d, is_Some (cache !! d) -> is_Some (cache' !! d)) ->
  (unset_fields heap cache' ≤ unset_fields heap cache)%nat.
Proof.
  intros Hmono. unfold unset_fields.
  induction heap as [|[k v] m IH]; [done|].
  rewrite !filter_cons. cbn [fst].
  destruct (decide (cache' !! k = None)) as [Hk'|Hk'];
    destruct (decide (cache !! k = None)) as [Hk|Hk]; cbn [length]; try lia.
  exfalso. destruct (cache !! k) as [x|] eqn:Hx; [|done].
  destruct (Hmono k) as [y Hy]; [by rewrite Hx|]. congruence.
Qed.

Lemma unset_fields_insert (cache : Cache) r node b :
  map_get heap r = Some node -> cache !! r = None ->
  (unset_fields heap (<[r := b]> cache) < unset_fields heap cache)%nat.
Proof.
  unfold unset_fields. induction heap as [|[k v] m IH]; [done|].
  cbn [map_get]. intros Hget Hr. rewrite !filter_cons. cbn [fst].
  destruct (String.eqb_spec k r) as [->|Hne].
  - rewrite decide_False by (by rewrite lookup_insert_eq).
    rewrite decide_True by done. cbn [length].
    assert (length (filter (fun entry : ref * CRAXNode =>
                              <[r := b]> cache !! fst entry = None) m)
            ≤ length (filter (fun entry : ref * CRAXNode =>
                                cache !! fst entry = None) m))%nat; [|lia].
    clear IH Hget. induction m as [|[k' v'] m' IH']; [done|].
    rewrite !filter_cons. cbn [fst].
    destruct (decide (<[r := b]> cache !! k' = None)) as [H1|H1];
      destruct (decide (cache !! k' = None)) as [H2|H2]; cbn [length]; try lia.
    exfalso. destruct (decide (k' = r)) as [->|Hk'].
    + by rewrite lookup_insert_eq in H1.
    + by rewrite lookup_insert_ne in H1.
  - rewrite lookup_insert_ne by done. specialize (IH Hget Hr).
    destruct (decide (cache !! k = None)); cbn [length]; lia.
Qed.

Lemma hasFocusableChild_loop_terminates
    (rec : Cache -> ref -> option (completion (bool * Cache))) r n :
  (∀ cache c, (unset_fields heap cache < n)%nat -> rec cache c ≠ None) ->
  (∀ cache c b cache',
     rec cache c = Some (Normal (b, cache')) ->
     ∀ d x, cache !! d = Some x -> cache' !! d = Some x) ->
  ∀ cs cache1,
    (unset_fields heap cache1 < n)%nat ->
    hasFocusableChild_loop rec heap r cs cache1 ≠ None.
Proof.
  intros Hrec Hframe cs. induction cs as [|c cs IH]; intros cache1 Hn; [done|].
  cbn [hasFocusableChild_loop]. destruct c as [c|]; [|done].
  destruct (map_get heap c) as [cn|]; [|done].
  destruct (_focusable cn); [done|].
  pose proof (Hrec cache1 c Hn) as Hcall.
  destruct (rec cache1 c) as [[[b cache1']|e]|] eqn:Hc; [|done|done].
  destruct b; [done|]. apply IH.
  eapply Nat.le_lt_trans; [|exact Hn]. apply unset_fields_mono.
  intros d [x Hx]. exists x. by eapply Hframe.
Qed.

Lemma hasFocusableChild_terminates fuel :
  ∀ cache r,
    (unset_fields heap cache < fuel)%nat ->
    _hasFocusableChild fuel heap cache r ≠ None.
Proof.
  induction fuel as [|fuel IH]; intros cache r Hfuel; [lia|].
  cbn [_hasFocusableChild].
  destruct (map_get heap r) as [node|] eqn:Hnode; [|done].
  destruct (cache !! r) as [x|] eqn:Hcache; [done|].
  pose proof (hasFocusableChild_loop_terminates (_hasFocusableChild fuel heap) r fuel)
    as Hloop.
  specialize (Hloop IH).
  specialize (Hloop (fun cache0 c b cache0' Hcall =>
                       proj1 (proj2 (hasFocusableChild_frame fuel _ _ _ _ Hcall)))).
  specialize (Hloop (_children node) (<[r := false]> cache)).
  destruct (hasFocusableChild_loop _ heap r (_children node) (<[r := false]> cache))
    as [[cache2|e]|]; [done|done|].
  exfalso. apply Hloop; [|done].
  pose proof (unset_fields_insert cache r node false Hnode Hcache). lia.
Qed.

End Frame.

(** X10. On any graph of objects, cyclic or with [undefined] children, a
    call of [_hasFocusableChild] that returns leaves its result in the
    node's field, never changes a field that was set, and sets fields only
    at the node and at objects reachable from it. *)
Theorem hasFocusableChild_memo (heap : Heap) (cache cache' : Cache) (r : ref)
    (b : bool) (fuel : nat) :
  _hasFocusableChild fuel heap cache r = Some (Normal (b, cache')) ->
  cache' !! r = Some b ∧
  (∀ d x, cache !! d = Some x -> cache' !! d = Some x) ∧
  (∀ d, is_Some (cache' !! d) -> is_Some (cache !! d) ∨ rtc (child_of heap) r d).
Proof. apply hasFocusableChild_frame. Qed.

Lemma hasFocusableChild_memo_witness :
  _hasFocusableChild 3 cyclic_heap {["b" := true]} "a"
  = Some (Normal (true, <["a" := true]> {["b" := true]})) ∧
  (<["a" := true]> {["b" := true]} : Cache) !! "a" = Some true ∧
  (∀ d x, ({["b" := true]} : Cache) !! d = Some x ->
          (<["a" := true]> {["b" := true]} : Cache) !! d = Some x) ∧
  (∀ d, is_Some ((<["a" := true]> {["b" := true]} : Cache) !! d) ->
        is_Some (({["b" := true]} : Cache) !! d) ∨ rtc (child_of cyclic_heap) "a" d).
Proof.
  assert (_hasFocusableChild 3 cyclic_heap {["b" := true]} "a"
          = Some (Normal (true, <["a" := true]> {["b" := true]}))) as Hrun
    by (vm_compute; reflexivity).
  split; [exact Hrun|].
  exact (hasFocusableChild_memo cyclic_heap _ _ "a" true 3 Hrun).
Defined.

(** X11. [_hasFocusableChild] always comes to an end, also on a graph with
    cycles: it marks the node before it visits the children, so no node is
    entered twice. In the model, fuel above the number of objects is always
    enough. *)
Theorem hasFocusableChild_terminates_on_any_graph (heap : Heap) (cache : Cache)
    (r : ref) (fuel : nat) :
  (length heap < fuel)%nat ->
  ∃ outcome, _hasFocusableChild fuel heap cache r = Some outcome.
Proof.
  intros Hfuel.
  assert (_hasFocusableChild fuel heap cache r ≠ None) as Hsome.
  { apply hasFocusableChild_terminates. eapply Nat.le_lt_trans; [|exact Hfuel].
    unfold unset_fields, Heap. apply length_filter. }
  destruct (_hasFocusableChild fuel heap cache r) as [outcome|]; [by exists outcome|done].
Qed.

Lemma hasFocusableChild_terminates_on_any_graph_witness :
  (length cyclic_heap < 3)%nat ∧
  ∃ outcome, _hasFocusableChild 3 cyclic_heap ∅ "a" = Some outcome.
Proof.
  assert (length cyclic_heap < 3)%nat as Hfuel by (vm_compute; lia).
  split; [exact Hfuel|].
  exact (hasFocusableChild_terminates_on_any_graph cyclic_heap ∅ "a" 3 Hfuel).
Defined.

(** On the two nodes that name each other, the walk ends; [find] with a
    predicate that nothing satisfies does not, whatever the fuel. *)
Example cyclic_walks :
  _hasFocusableChild 3 cyclic_heap ∅ "a"
  = Some (Normal (false, <["a" := false]> {["b" := false]})) ∧
  find 50 cyclic_heap (fun _ => false) "a" = None.
Proof. split; vm_compute; reflexivity. Qed.

(** X16. On a tree, the flag goes up: when a child is focusable, or
    [_hasFocusableChild] is true at the child, [_hasFocusableChild] is true
    at the parent. *)
Theorem hasFocusableChild_upward (heap : Heap) (cache : Cache) (r c : ref)
    (k fuel : nat) :
  tree_ok k heap r = true -> (k ≤ fuel)%nat -> cache_sound heap cache ->
  child_of heap r c ->
  ∃ b_parent cache_parent b_child cache_child,
    _hasFocusableChild fuel heap cache r = Some (Normal (b_parent, cache_parent)) ∧
    _hasFocusableChild fuel heap cache c = Some (Normal (b_child, cache_child)) ∧
    (b_child = true -> b_parent = true) ∧
    (focusable_at heap c -> b_parent = true).
Proof.
  intros Hok Hfuel Hsound Hchild.
  destruct (hasFocusableChild_sound heap cache r k fuel Hok Hfuel Hsound)
    as (bp & cp & Hp & Hbp & _).
  assert (tree_ok k heap c = true) as Hokc.
  { destruct k as [|k']; [done|]. apply (tree_ok_mono heap k'); [|lia].
    by apply (tree_ok_child heap k' r). }
  destruct (hasFocusableChild_sound heap cache c k fuel Hokc Hfuel Hsound)
    as (bc & cc & Hc & Hbc & _).
  exists bp, cp, bc, cc. split; [done|]. split; [done|].
  rewrite Hbp, Hbc, (has_focusable_descendant_unfold heap r). split.
  - intros Hfd. exists c. split; [done|]. by right.
  - intros Hfoc. exists c. split; [done|]. by left.
Qed.

Lemma hasFocusableChild_upward_witness :
  tree_ok 3 scenario_heap "R" = true ∧ (3 ≤ 3)%nat ∧ cache_sound scenario_heap ∅ ∧
  child_of scenario_heap "R" "A" ∧
  ∃ b_parent cache_parent b_child cache_child,
    _hasFocusableChild 3 scenario_heap ∅ "R" = Some (Normal (b_parent, cache_parent)) ∧
    _hasFocusableChild 3 scenario_heap ∅ "A" = Some (Normal (b_child, cache_child)) ∧
    (b_child = true -> b_parent = true) ∧
    (focusable_at scenario_heap "A" -> b_parent = true).
Proof.
  assert (tree_ok 3 scenario_heap "R" = true) as Hok by reflexivity.
  assert (3 ≤ 3)%nat as Hle by lia.
  assert (child_of scenario_heap "R" "A") as Hchild.
  { exists scenario_root. split; [reflexivity|left]. }
  split; [exact Hok|]. split; [exact Hle|]. split; [apply cache_sound_empty|].
  split; [exact Hchild|].
  exact (hasFocusableChild_upward scenario_heap ∅ "R" "A" 3 3 Hok Hle
           (cache_sound_empty scenario_heap) Hchild).
Defined.

(** ** Search on any graph of objects, and by backend node id *)

Lemma find_loop_sound (heap : Heap) (predicate : CRAXNode -> bool)
    (rec : ref -> option (completion (option ref))) :
  (∀ c d, rec c = Some (Normal (Some d)) ->
          satisfies heap predicate d = true ∧ rtc (child_of heap) c d) ->
  ∀ cs d,
    find_loop rec cs = Some (Normal (Some d)) ->
    satisfies heap predicate d = true ∧ ∃ c, Some c ∈ cs ∧ rtc (child_of heap) c d.
Proof.
  intros Hrec cs. induction cs as [|c cs IH]; intros d Hrun; [done|].
  cbn [find_loop] in Hrun. destruct c as [c|]; [|done].
  destruct (rec c) as [[[d'|]|e]|] eqn:Hcall; [| |done|done].
  - injection Hrun as ->. destruct (Hrec _ _ Hcall) as [Hsat Hreach].
    split; [done|]. exists c. split; [by left|done].
  - destruct (IH d Hrun) as (Hsat & c' & Hc' & Hreach).
    split; [done|]. exists c'. split; [by right|done].
Qed.

Lemma find_sound (heap : Heap) (predicate : CRAXNode -> bool) (fuel : nat) :
  ∀ r d,
    find fuel heap predicate r = Some (Normal (Some d)) ->
    satisfies heap predicate d = true ∧ rtc (child_of heap) r d.
Proof.
  induction fuel as [|fuel IH]; intros r d Hrun; [done|].
  cbn [find] in Hrun. destruct (map_get heap r) as [node|] eqn:Hnode; [|done].
  destruct (predicate node) eqn:Hp.
  - injection Hrun as <-. split; [|done]. unfold satisfies. by rewrite Hnode.
  - destruct (find_loop_sound heap predicate (find fuel heap predicate) IH _ _ Hrun)
      as (Hsat & c & Hc & Hreach).
    split; [done|]. apply rtc_l with c; [by exists node|done].
Qed.

(** X12. On any graph of objects, a node that [find] returns satisfies the
    predicate and is the start node or reachable from it through child
    references. *)
Theorem find_returns_match (heap : Heap) (predicate : CRAXNode -> bool)
    (r d : ref) (fuel : nat) :
  find fuel heap predicate r = Some (Normal (Some d)) ->
  satisfies heap predicate d = true ∧ rtc (child_of heap) r d.
Proof. apply find_sound. Qed.

Lemma find_returns_match_witness :
  find 2 cyclic_heap (fun n => String.eqb (Protocol.nodeId (_payload n)) "b") "a"
  = Some (Normal (Some "b")) ∧
  satisfies cyclic_heap (fun n => String.eqb (Protocol.nodeId (_payload n)) "b") "b"
  = true ∧
  rtc (child_of cyclic_heap) "a" "b".
Proof.
  assert (find 2 cyclic_heap
            (fun n => String.eqb (Protocol.nodeId (_payload n)) "b") "a"
          = Some (Normal (Some "b"))) as Hrun by reflexivity.
  split; [exact Hrun|].
  exact (find_returns_match cyclic_heap _ "a" "b" 2 Hrun).
Defined.

(** X13. On a tree, [findElement] with the backend node id that the session
    has resolved returns a node of the tree whose payload carries that id,
    and [null] exactly when no node of the tree does; a node whose payload
    has no [backendDOMNodeId] is never returned. *)
Theorem findElement_by_backend_id (heap : Heap) (r : ref) (backendNodeId : Z)
    (k fuel : nat) :
  tree_ok k heap r = true -> (k ≤ fuel)%nat ->
  ∃ result,
    findElement fuel heap r backendNodeId = Some (Normal result) ∧
    match result with
    | Some d =>
        rtc (child_of heap) r d ∧
        ∃ node, map_get heap d = Some node ∧
                Protocol.backendDOMNodeId (_payload node) = Some backendNodeId
    | None =>
        ∀ d node, rtc (child_of heap) r d -> map_get heap d = Some node ->
                  Protocol.backendDOMNodeId (_payload node) ≠ Some backendNodeId
    end.
Proof.
  intros Hok Hfuel. unfold findElement.
  set (predicate := fun node : CRAXNode =>
                      match Protocol.backendDOMNodeId (_payload node) with
                      | Some id => Z.eqb id backendNodeId
                      | None => false
                      end).
  rewrite (find_correct heap predicate k fuel r Hfuel Hok).
  pose proof (find_first (satisfies heap predicate) (preorder k heap r)) as Hfirst.
  assert (∀ d node, map_get heap d = Some node ->
            (satisfies heap predicate d = true ↔
             Protocol.backendDOMNodeId (_payload node) = Some backendNodeId)) as Hsat.
  { intros d node Hnode. unfold satisfies, predicate. rewrite Hnode.
    destruct (Protocol.backendDOMNodeId (_payload node)) as [id|]; [|done].
    rewrite Z.eqb_eq. split; congruence. }
  destruct (List.find _ (preorder k heap r)) as [d|].
  - exists (Some d). split; [done|].
    destruct Hfirst as (l1 & l2 & Heq & Hd & _). split.
    + apply (preorder_reachable heap k r d Hok). rewrite Heq.
      apply elem_of_app. right. by left.
    + unfold satisfies in Hd. destruct (map_get heap d) as [node|] eqn:Hnode; [|done].
      exists node. split; [done|]. apply (Hsat d node Hnode).
      unfold satisfies. by rewrite Hnode.
  - exists None. split; [done|]. intros d node Hreach Hnode Hid.
    apply (Hsat d node Hnode) in Hid.
    rewrite Hfirst in Hid; [done|]. by apply preorder_reachable.
Qed.

Lemma findElement_by_backend_id_witness :
  tree_ok 2 with_backend_ids_heap "1" = true ∧ (2 ≤ 2)%nat ∧
  ∃ result,
    findElement 2 with_backend_ids_heap "1" 30 = Some (Normal result) ∧
    match result with
    | Some d =>
        rtc (child_of with_backend_ids_heap) "1" d ∧
        ∃ node, map_get with_backend_ids_heap d = Some node ∧
                Protocol.backendDOMNodeId (_payload node) = Some 30%Z
    | None =>
        ∀ d node, rtc (child_of with_backend_ids_heap) "1" d ->
                  map_get with_backend_ids_heap d = Some node ->
                  Protocol.backendDOMNodeId (_payload node) ≠ Some 30%Z
    end.
Proof.
  assert (tree_ok 2 with_backend_ids_heap "1" = true) as Hok by reflexivity.
  assert (2 ≤ 2)%nat as Hle by lia.
  split; [exact Hok|]. split; [exact Hle|].
  exact (findElement_by_backend_id with_backend_ids_heap "1" 30 2 2 Hok Hle).
Defined.

(** The snapshot with backend ids: id 30 is the button, id 99 is nobody. *)
Example findElement_sample :
  findElement 2 with_backend_ids_heap "1" 30 = Some (Normal (Some "3")) ∧
  findElement 2 with_backend_ids_heap "1" 99 = Some (Normal None).
Proof. split; reflexivity. Qed.

(** ** Interesting nodes *)

(** X14. Asked about a node inside a control, [isInteresting] does not walk
    the children: for every object it returns at once, whatever lies below
    it, and sets no field. A node that is interesting inside a control is
    interesting outside one. *)
Theorem isInteresting_inside_control (heap : Heap) (cache : Cache) (r : ref)
    (node : CRAXNode) (fuel : nat) :
  map_get heap r = Some node ->
  ∃ b,
    isInteresting fuel heap cache r true = Some (Normal (b, cache)) ∧
    (b = true ->
     ∀ fuel', isInteresting fuel' heap cache r false = Some (Normal (true, cache))).
Proof.
  intros Hnode. unfold isInteresting. rewrite Hnode.
  destruct (String.eqb (_role node) "Ignored" || _hidden node);
    [by exists false|].
  destruct (_focusable node || _richlyEditable node); [by exists true|].
  destruct (isControl node); [by exists true|]. by exists false.
Qed.

Lemma isInteresting_inside_control_witness :
  map_get dangling_heap "r" = Some (push_children (new_CRAXNode
                                      (record "r" (Some "WebArea") (Some "") None
                                         (Some ["x9"]))) [None]) ∧
  ∃ b,
    isInteresting 0 dangling_heap ∅ "r" true = Some (Normal (b, ∅)) ∧
    (b = true ->
     ∀ fuel', isInteresting fuel' dangling_heap ∅ "r" false = Some (Normal (true, ∅))).
Proof.
  assert (map_get dangling_heap "r"
          = Some (push_children (new_CRAXNode
                                   (record "r" (Some "WebArea") (Some "") None
                                      (Some ["x9"]))) [None])) as Hnode
    by reflexivity.
  split; [exact Hnode|].
  exact (isInteresting_inside_control dangling_heap ∅ "r" _ 0 Hnode).
Defined.

(** [isInteresting] on a tree whose set fields are right. *)
Lemma isInteresting_correct (heap : Heap) (cache : Cache) (r : ref) (node : CRAXNode)
    (insideControl : bool) (k fuel : nat) :
  map_get heap r = Some node ->
  tree_ok k heap r = true -> (k ≤ fuel)%nat -> cache_sound heap cache ->
  ∃ b cache',
    isInteresting fuel heap cache r insideControl = Some (Normal (b, cache')) ∧
    (b = true ↔ interesting_rule "Ignored" heap r node insideControl) ∧
    cache_sound heap cache'.
Proof.
  intros Hnode Hok Hfuel Hsound. unfold isInteresting, interesting_rule.
  rewrite Hnode.
  destruct (String.eqb_spec (_role node) "Ignored") as [Hrole|Hrole].
  { exists false, cache. split; [done|]. split; [|done]. split; [done|].
    intros [Hn _]. exfalso. apply Hn. by left. }
  destruct (_hidden node) eqn:Hhidden.
  { exists false, cache. split; [done|]. split; [|done]. split; [done|].
    intros [Hn _]. exfalso. apply Hn. by right. }
  assert (¬ (_role node = "Ignored" ∨ false = true)) as Hshown.
  { intros [?|?]; done. }
  cbn [orb].
  destruct (_focusable node) eqn:Hfoc.
  { exists true, cache. split; [done|]. split; [|done]. split; [|done].
    intros _. split; [done|]. by left. }
  destruct (_richlyEditable node) eqn:Hrich.
  { exists true, cache. split; [done|]. split; [|done]. split; [|done].
    intros _. split; [done|]. by right; left. }
  cbn [orb].
  destruct (isControl node) eqn:Hcontrol.
  { exists true, cache. split; [done|]. split; [|done]. split; [|done].
    intros _. split; [done|]. by right; right; left. }
  destruct insideControl.
  { exists false, cache. split; [done|]. split; [|done]. split; [done|].
    intros [_ [?|[?|[?|[? _]]]]]; done. }
  destruct (isLeafNode_correct heap cache r node k fuel Hnode Hok Hfuel Hsound)
    as (leaf & cache' & -> & Hleaf & Hsound').
  exists (leaf && negb (String.eqb (_name node) "")), cache'. split; [done|].
  split; [|done].
  rewrite andb_true_iff, Hleaf, negb_true_iff, String.eqb_neq.
  split.
  - intros [Hl Hn]. split; [done|]. by right; right; right.
  - intros [_ [?|[?|[?|[_ [Hl Hn]]]]]]; done.
Qed.

(** X15. On a tree, the memoization does not show: the answer of
    [isInteresting] for a node is the same after an earlier query about any
    node of the tree as without it. *)
Theorem isInteresting_after_earlier_query (heap : Heap) (cache : Cache)
    (r1 r2 : ref) (inside1 inside2 : bool) (k fuel : nat) :
  tree_ok k heap r1 = true -> tree_ok k heap r2 = true -> (k ≤ fuel)%nat ->
  cache_sound heap cache ->
  ∃ b1 cache1 b2 cache2 cache2',
    isInteresting fuel heap cache r1 inside1 = Some (Normal (b1, cache1)) ∧
    isInteresting fuel heap cache1 r2 inside2 = Some (Normal (b2, cache2)) ∧
    isInteresting fuel heap cache r2 inside2 = Some (Normal (b2, cache2')).
Proof.
  intros Hok1 Hok2 Hfuel Hsound.
  destruct (tree_ok_lookup heap k r1 Hok1) as (_ & node1 & _ & Hnode1 & _).
  destruct (tree_ok_lookup heap k r2 Hok2) as (_ & node2 & _ & Hnode2 & _).
  destruct (isInteresting_correct heap cache r1 node1 inside1 k fuel Hnode1 Hok1 Hfuel
              Hsound) as (b1 & cache1 & Hrun1 & _ & Hsound1).
  destruct (isInteresting_correct heap cache1 r2 node2 inside2 k fuel Hnode2 Hok2 Hfuel
              Hsound1) as (b2 & cache2 & Hrun2 & Hb2 & _).
  destruct (isInteresting_correct heap cache r2 node2 inside2 k fuel Hnode2 Hok2 Hfuel
              Hsound) as (b2' & cache2' & Hrun2' & Hb2' & _).
  exists b1, cache1, b2, cache2, cache2'. split; [done|]. split; [done|].
  rewrite Hrun2'. do 3 f_equal.
  destruct b2, b2'; try done.
  - apply (proj2 Hb2'). by apply (proj1 Hb2).
  - symmetry. apply (proj2 Hb2). by apply (proj1 Hb2').
Qed.

Lemma isInteresting_after_earlier_query_witness :
  tree_ok 3 scenario_heap "R" = true ∧ tree_ok 3 scenario_heap "A" = true ∧
  (3 ≤ 3)%nat ∧ cache_sound scenario_heap ∅ ∧
  ∃ b1 cache1 b2 cache2 cache2',
    isInteresting 3 scenario_heap ∅ "R" false = Some (Normal (b1, cache1)) ∧
    isInteresting 3 scenario_heap cache1 "A" false = Some (Normal (b2, cache2)) ∧
    isInteresting 3 scenario_heap ∅ "A" false = Some (Normal (b2, cache2')).
Proof.
  assert (tree_ok 3 scenario_heap "R" = true) as Hok1 by reflexivity.
  assert (tree_ok 3 scenario_heap "A" = true) as Hok2 by reflexivity.
  assert (3 ≤ 3)%nat as Hle by lia.
  split; [exact Hok1|]. split; [exact Hok2|]. split; [exact Hle|].
  split; [apply cache_sound_empty|].
  exact (isInteresting_after_earlier_query scenario_heap ∅ "R" "A" false false 3 3
           Hok1 Hok2 Hle (cache_sound_empty scenario_heap)).
Defined.
